(** * Annotation page of the scientific text annotator

    A shallow embedding of the span bookkeeping done by the React front end
    ([src/pages/AnnotationPage.tsx] and the two [ValidationComponent]
    variants) together with the properties its specification states about
    combining, adding, removing, validating and repairing annotation spans. *)

From Stdlib Require Import ZArith QArith Qcanon Lia.
From stdpp Require Import base numbers list strings gmap sorting.

Open Scope Z_scope.

(** ** Data model *)

(** [interface AnnotationEntity]: character offsets are JS numbers holding
    integers, the optional [confidence] is a rational in [0,1], the optional
    [source] is whatever string the JSON carried (the TypeScript type allows
    ["llm"] and ["manual"], a response is not checked against it). *)
Record AnnotationEntity := {
  start_char : Z;
  end_char : Z;
  text : string;
  label : string;
  confidence : option Qc;
  source : option string
}.

(** The spread copy [{ ...e, source: s }]. *)
Definition with_source (s : string) (e : AnnotationEntity) : AnnotationEntity :=
  {| start_char := start_char e; end_char := end_char e; text := text e;
     label := label e; confidence := confidence e; source := Some s |}.

(** A JS object: the fields together with the identity that [===] and [!==]
    compare.  Entities are never mutated after creation, so a heap cell is
    fully described by its address and its (immutable) contents. *)
Record obj := Obj { oid : nat; fields :> AnnotationEntity }.

(** [a !== b] on objects. *)
Definition strict_ne (a b : obj) : bool := negb (Nat.eqb (oid a) (oid b)).

(** Allocation of one fresh object per element, at consecutive addresses. *)
Definition alloc (base : nat) (l : list AnnotationEntity) : list obj :=
  imap (fun i e => Obj (base + i) e) l.

(** [l.map((e) => ({ ...e, source: s }))] allocating from [base]. *)
Definition spread_map (base : nat) (s : string) (l : list obj) : list obj :=
  alloc base ((fun e : obj => with_source s e) <$> l).

(** ** [Array.prototype.sort((a, b) => a.start_char - b.start_char)]

    The comparator only looks at [start_char]; the sort is stable
    (ECMAScript 2019), so the result is the stable arrangement by
    [start_char], computed here by insertion. *)
Fixpoint insert_by_start (x : obj) (l : list obj) : list obj :=
  match l with
  | [] => [x]
  | y :: l' =>
      if start_char x - start_char y <=? 0 then x :: y :: l'
      else y :: insert_by_start x l'
  end.

Definition sort_by_start (l : list obj) : list obj :=
  foldr insert_by_start [] l.

(** [combinedEntities] (AnnotationPage.tsx, useMemo): concatenate the copies
    of the LLM entities and of the manual entities, then sort by start. *)
Definition combinedEntities (base : nat) (entities manualEntities : list obj)
  : list obj :=
  let combined :=
    spread_map base "llm" entities
    ++ spread_map (base + length entities) "manual" manualEntities in
  sort_by_start combined.

(** Two half-open ranges [start_char, end_char) intersect. *)
Definition overlaps (a b : AnnotationEntity) : bool :=
  Z.max (start_char a) (start_char b) <? Z.min (end_char a) (end_char b).

(** No two spans of the list intersect. *)
Definition pairwise_disjoint (l : list obj) : Prop :=
  ForallOrdPairs (fun a b : obj => overlaps a b = false) l.

(** The ordering the specification asks of the combined list: by start,
    ties by end. *)
Definition sorted_start_then_end (l : list obj) : Prop :=
  forall (i j : nat) (a b : obj),
    (i < j)%nat -> l !! i = Some a -> l !! j = Some b ->
    start_char a < start_char b
    \/ (start_char a = start_char b /\ end_char a <= end_char b).

(** The order of the comparator, and the range of a span. *)
Definition le_start (a b : obj) : Prop := start_char a <= start_char b.

Definition range_of (e : obj) : Z * Z := (start_char e, end_char e).

Definition ranges_meet (r1 r2 : Z * Z) : bool :=
  Z.max r1.1 r2.1 <? Z.min r1.2 r2.2.

(** ** Page state and handlers (AnnotationPage.tsx) *)

(** [interface AnnotationTag]. *)
Record AnnotationTag := {
  tag_name : string;
  definition : string;
  examples : string
}.

(** The [useState] cells the handlers below read or write.  [doc_text] is
    the cell the source calls [text].  [heap_next] is the first address no
    object created so far occupies. *)
Record AppState := {
  doc_text : string;
  tags : list AnnotationTag;
  entities : list obj;
  manualEntities : list obj;
  selectedText : string;
  selectedRange : option (Z * Z);
  chunkSize : Z;
  overlap : Z;
  heap_next : nat
}.

Definition initialState : AppState :=
  {| doc_text := EmptyString; tags := []; entities := [];
     manualEntities := []; selectedText := EmptyString; selectedRange := None;
     chunkSize := 1000; overlap := 50; heap_next := 0 |}.

(** The memoised [combinedEntities] of a state: its copies occupy the
    addresses from [heap_next] up to [heap_top].  A handler that changes the
    state allocates from [heap_top] on, and the render that follows it
    allocates its copies above everything created so far. *)
Definition combinedOf (st : AppState) : list obj :=
  combinedEntities (heap_next st) (entities st) (manualEntities st).

Definition heap_top (st : AppState) : nat :=
  (heap_next st + length (entities st) + length (manualEntities st))%nat.

(** White space removed by [String.prototype.trim], among the code units
    below 256. *)
Definition is_white_space (c : Ascii.ascii) : bool :=
  let n := Ascii.nat_of_ascii c in
  ((9 <=? n) && (n <=? 13) || (n =? 32) || (n =? 160))%nat.

Fixpoint trimStart (s : string) : string :=
  match s with
  | EmptyString => EmptyString
  | String c r => if is_white_space c then trimStart r else s
  end.

Fixpoint trimEnd (s : string) : string :=
  match s with
  | EmptyString => EmptyString
  | String c r =>
      match trimEnd r with
      | EmptyString => if is_white_space c then EmptyString else String c EmptyString
      | r' => String c r'
      end
  end.

Definition trim (s : string) : string := trimEnd (trimStart s).

(** Truthiness of a JS string. *)
Definition truthy_string (s : string) : bool := negb (String.eqb s EmptyString).

(** The object literal built by [handleAddManualAnnotation]. *)
Definition newEntity (st : AppState) (lbl : string) (range : Z * Z)
  : AnnotationEntity :=
  {| start_char := range.1; end_char := range.2; text := selectedText st;
     label := lbl; confidence := Some 1%Qc; source := Some "manual" |}.

Definition handleAddManualAnnotation (lbl : string) (st : AppState) : AppState :=
  match selectedRange st with
  | None => st
  | Some range =>
      if truthy_string (trim (selectedText st)) then
        {| doc_text := doc_text st; tags := tags st; entities := entities st;
           manualEntities :=
             manualEntities st ++ [Obj (heap_top st) (newEntity st lbl range)];
           selectedText := EmptyString; selectedRange := None;
           chunkSize := chunkSize st; overlap := overlap st;
           heap_next := S (heap_top st) |}
      else st
  end.

(** [entity.source === "manual"]. *)
Definition is_manual (e : AnnotationEntity) : bool :=
  bool_decide (source e = Some "manual").

Definition is_llm (e : AnnotationEntity) : bool :=
  bool_decide (source e = Some "llm").

Definition handleRemoveEntity (entity : obj) (st : AppState) : AppState :=
  if is_manual entity then
    {| doc_text := doc_text st; tags := tags st; entities := entities st;
       manualEntities :=
         List.filter (fun e => strict_ne e entity) (manualEntities st);
       selectedText := selectedText st; selectedRange := selectedRange st;
       chunkSize := chunkSize st; overlap := overlap st;
       heap_next := heap_top st |}
  else
    {| doc_text := doc_text st; tags := tags st;
       entities := List.filter (fun e => strict_ne e entity) (entities st);
       manualEntities := manualEntities st;
       selectedText := selectedText st; selectedRange := selectedRange st;
       chunkSize := chunkSize st; overlap := overlap st;
       heap_next := heap_top st |}.

(** The [onEntitiesUpdate] callback handed to [ValidationComponent]. *)
Definition onEntitiesUpdate (updatedEntities : list obj) (st : AppState)
  : AppState :=
  let llmEntities := List.filter (fun e : obj => is_llm e) updatedEntities in
  let manualEntitiesUpdated :=
    List.filter (fun e : obj => is_manual e) updatedEntities in
  {| doc_text := doc_text st; tags := tags st;
     entities := llmEntities; manualEntities := manualEntitiesUpdated;
     selectedText := selectedText st; selectedRange := selectedRange st;
     chunkSize := chunkSize st; overlap := overlap st;
     heap_next := (heap_top st + length updatedEntities)%nat |}.

(** The [onMouseUp] handler of the highlighted text; [start] and [end_] are
    the offsets the browser's range gave. *)
Definition onMouseUp (sel : string) (start end_ : Z) (st : AppState) : AppState :=
  if truthy_string (trim sel) then
    {| doc_text := doc_text st; tags := tags st; entities := entities st;
       manualEntities := manualEntities st;
       selectedText := sel; selectedRange := Some (start, end_);
       chunkSize := chunkSize st; overlap := overlap st;
       heap_next := heap_top st |}
  else st.

Definition setText (t : string) (st : AppState) : AppState :=
  {| doc_text := t; tags := tags st; entities := entities st;
     manualEntities := manualEntities st;
     selectedText := selectedText st; selectedRange := selectedRange st;
     chunkSize := chunkSize st; overlap := overlap st;
     heap_next := heap_top st |}.

Definition setTags (l : list AnnotationTag) (st : AppState) : AppState :=
  {| doc_text := doc_text st; tags := l; entities := entities st;
     manualEntities := manualEntities st;
     selectedText := selectedText st; selectedRange := selectedRange st;
     chunkSize := chunkSize st; overlap := overlap st;
     heap_next := heap_top st |}.

(** [setEntities(result.entities)] at the end of a successful
    [handleAnnotate]: the parsed response is made of new objects. *)
Definition setEntities (result : list AnnotationEntity) (st : AppState)
  : AppState :=
  {| doc_text := doc_text st; tags := tags st;
     entities := alloc (heap_top st) result;
     manualEntities := manualEntities st;
     selectedText := selectedText st; selectedRange := selectedRange st;
     chunkSize := chunkSize st; overlap := overlap st;
     heap_next := (heap_top st + length result)%nat |}.

Definition setChunkSize (v : Z) (st : AppState) : AppState :=
  {| doc_text := doc_text st; tags := tags st; entities := entities st;
     manualEntities := manualEntities st;
     selectedText := selectedText st; selectedRange := selectedRange st;
     chunkSize := v; overlap := overlap st; heap_next := heap_top st |}.

Definition setOverlap (v : Z) (st : AppState) : AppState :=
  {| doc_text := doc_text st; tags := tags st; entities := entities st;
     manualEntities := manualEntities st;
     selectedText := selectedText st; selectedRange := selectedRange st;
     chunkSize := chunkSize st; overlap := v; heap_next := heap_top st |}.

(** The values an [<input type="range" min max step>] can report. *)
Definition slider_value (min max step v : Z) : Prop :=
  exists k : Z, 0 <= k /\ v = min + k * step /\ v <= max.

(** What the user (or a response that arrives) can do to the page. *)
Inductive event :=
| TextEdited (t : string)
| TagsLoaded (l : list AnnotationTag)
| AnnotateOk (result : list AnnotationEntity)
| MouseUp (sel : string) (start end_ : Z)
| AddManual (lbl : string)
| RemoveClicked (entity : obj)
| EntitiesFixed (updated : list AnnotationEntity)
| ChunkSizeMoved (v : Z)
| OverlapMoved (v : Z).

(** When the page offers the event: the controls rendered in the state and
    the guards at the head of the handlers. *)
Definition enabled (st : AppState) (ev : event) : Prop :=
  match ev with
  | TextEdited _ | TagsLoaded _ => True
  | AnnotateOk _ => truthy_string (trim (doc_text st)) = true /\ tags st <> []
  | MouseUp _ _ _ => truthy_string (doc_text st) = true /\ combinedOf st <> []
  | AddManual lbl =>
      truthy_string (selectedText st) = true /\ selectedRange st <> None
      /\ lbl ∈ tag_name <$> (tags st)
  | RemoveClicked entity => entity ∈ combinedOf st
  | EntitiesFixed _ => combinedOf st <> []
  | ChunkSizeMoved v => slider_value 200 4000 100 v
  | OverlapMoved v => slider_value 0 200 10 v
  end.

Definition handle (ev : event) (st : AppState) : AppState :=
  match ev with
  | TextEdited t => setText t st
  | TagsLoaded l => setTags l st
  | AnnotateOk result => setEntities result st
  | MouseUp sel start end_ => onMouseUp sel start end_ st
  | AddManual lbl => handleAddManualAnnotation lbl st
  | RemoveClicked entity => handleRemoveEntity entity st
  | EntitiesFixed updated => onEntitiesUpdate (alloc (heap_top st) updated) st
  | ChunkSizeMoved v => setChunkSize v st
  | OverlapMoved v => setOverlap v st
  end.

Inductive reachable : AppState -> Prop :=
| reachable_init : reachable initialState
| reachable_step st ev :
    reachable st -> enabled st ev -> reachable (handle ev st).

(** Running a list of events from a state. *)
Definition run (evs : list event) (st : AppState) : AppState :=
  foldl (fun s ev => handle ev s) st evs.

(** Every event of a trace is offered when its turn comes. *)
Fixpoint all_enabled (evs : list event) (st : AppState) : Prop :=
  match evs with
  | [] => True
  | ev :: evs' => enabled st ev /\ all_enabled evs' (handle ev st)
  end.

(** Every stored object was created before the current render. *)
Definition stored_below (st : AppState) : Prop :=
  forall o : obj,
    o ∈ entities st ++ manualEntities st -> (oid o < heap_next st)%nat.

(** The source is one of the two the page knows. *)
Definition tagged (e : obj) : Prop :=
  source e = Some "llm" \/ source e = Some "manual".

(** The offsets of the manual spans; they are pairwise distinct when this
    list has no duplicate. *)
Definition manual_ranges (st : AppState) : list (Z * Z) :=
  (fun e : obj => (start_char e, end_char e)) <$> (manualEntities st).

(** ** Token recommendations *)

Record TokenRecommendations := {
  min_tokens : Z;
  max_tokens_limit : Z;
  default_tokens : Z;
  input_tokens_estimate : Z
}.

(** [Math.ceil(n / 4)] on an integer [n]. *)
Definition ceil_div (n d : Z) : Z := - ((- n) / d).

Definition tokenRecommendations (chunkSize : Z) : TokenRecommendations :=
  let inputTokens := ceil_div chunkSize 4 in
  let minTokens := Z.max 100 (inputTokens / 2) in
  let maxTokensLimit := Z.min 4000 (inputTokens * 3) in
  let defaultTokens := Z.min 2000 (inputTokens * 2) in
  {| min_tokens := minTokens; max_tokens_limit := maxTokensLimit;
     default_tokens := defaultTokens; input_tokens_estimate := inputTokens |}.

Definition tokens_ordered (r : TokenRecommendations) : Prop :=
  min_tokens r <= default_tokens r /\ default_tokens r <= max_tokens_limit r.

(** ** The Fix call of [ValidationComponent] *)

(** Parsed JSON as the handlers inspect it. *)
#[warnings="-register-all"] Inductive jsval :=
| JUndefined
| JNull
| JBool (b : bool)
| JNum (n : Z)
| JStr (s : string)
| JEntities (l : list AnnotationEntity)
| JObject (members : gmap string jsval).

(** Truthiness, as tested by [if (v)] and [v || w]. *)
Definition truthy (v : jsval) : bool :=
  match v with
  | JUndefined | JNull => false
  | JBool b => b
  | JNum n => negb (n =? 0)
  | JStr s => truthy_string s
  | JEntities _ | JObject _ => true
  end.

(** [v.k] on a value that is not [null] or [undefined]. *)
Definition prop (k : string) (v : jsval) : jsval :=
  match v with
  | JObject members => default JUndefined (members !! k)
  | _ => JUndefined
  end.

(** [a || b]. *)
Definition js_or (a b : jsval) : jsval := if truthy a then a else b.

(** [v?.length || 0]. *)
Definition length_or_0 (v : jsval) : Z :=
  match v with
  | JEntities l => Z.of_nat (length l)
  | JStr s => Z.of_nat (String.length s)
  | _ => 0
  end.

(** What the user is told when a fix call returns. *)
Inductive fix_alert :=
| FixFailed
| FixCompleted (total already_correct fixed unfixable multiple_matches
                strategy_used : jsval)
| FixUpdated (n : Z).

(** What a run of [handleFix] does once the response body is parsed: the
    list handed to [onEntitiesUpdate], the value given to
    [setValidationResult], and the alert shown. *)
Record fix_effects := {
  entities_update : option (list AnnotationEntity);
  validation_result : option (gmap string jsval);
  alert : option fix_alert
}.

(** The first variant of [ValidationComponent.tsx]: its [handleFix] reads
    [result.fixed_entities]. *)
Module ValidationComponent1.

Definition handleFix (result : gmap string jsval) : fix_effects :=
  let fixed_entities := prop "fixed_entities" (JObject result) in
  if truthy fixed_entities then
    match fixed_entities with
    | JEntities l =>
        {| entities_update := Some l; validation_result := Some result;
           alert := None |}
    | _ =>
        (* [updatedEntities.filter] is not a function: the catch branch *)
        {| entities_update := None; validation_result := None;
           alert := Some FixFailed |}
    end
  else
    {| entities_update := None; validation_result := None; alert := None |}.

End ValidationComponent1.

(** The second variant of [ValidationComponent.tsx]: its [handleFix] reads
    [result.fixed_annotations] and [result.fix_statistics]. *)
Module ValidationComponent2.

Definition stats_alert (result : gmap string jsval) : fix_alert :=
  let stats := prop "fix_statistics" (JObject result) in
  if truthy stats then
    FixCompleted (prop "total" stats) (prop "already_correct" stats)
                 (prop "fixed" stats) (prop "unfixable" stats)
                 (js_or (prop "multiple_matches" stats) (JNum 0))
                 (prop "strategy_used" stats)
  else
    FixUpdated (length_or_0 (prop "fixed_annotations" (JObject result))).

Definition handleFix (result : gmap string jsval) : fix_effects :=
  let fixed_annotations := prop "fixed_annotations" (JObject result) in
  if truthy fixed_annotations then
    match fixed_annotations with
    | JEntities l =>
        {| entities_update := Some l; validation_result := None;
           alert := Some (stats_alert result) |}
    | _ =>
        {| entities_update := None; validation_result := None;
           alert := Some FixFailed |}
    end
  else
    {| entities_update := None; validation_result := None;
       alert := Some (stats_alert result) |}.

End ValidationComponent2.

(** The contract the specification gives for the Fix call, for a handler
    [h]: a response carrying the repaired spans under [fixed_entities] and
    the six statistics under [fix_statistics] makes the client take the
    spans from [fixed_entities] and report those statistics. *)
Definition fix_contract_at (h : gmap string jsval -> fix_effects)
    (result : gmap string jsval) (es : list AnnotationEntity)
    (stats : gmap string jsval) : Prop :=
  result !! "fixed_entities" = Some (JEntities es) ->
  result !! "fix_statistics" = Some (JObject stats) ->
  entities_update (h result) = Some es
  /\ alert (h result) =
       Some (FixCompleted (prop "total" (JObject stats))
               (prop "already_correct" (JObject stats))
               (prop "fixed" (JObject stats))
               (prop "unfixable" (JObject stats))
               (js_or (prop "multiple_matches" (JObject stats)) (JNum 0))
               (prop "strategy_used" (JObject stats))).

(** ** The span fixer behind [POST /annotations/fix] *)

Module Fixer.

(** [txt[a:b]] for [0 <= a <= b]. *)
Definition slice (txt : string) (a b : Z) : string :=
  String.substring (Z.to_nat a) (Z.to_nat (b - a)) txt.

(** Modelled from the spec: the range check of the Span Validator
    (section 4.2, check 1); the validation service is not among the
    sources.  Offsets are non-negative, [start < end], and
    [end <= len(text)]. *)
Definition range_ok (txt : string) (a b : Z) : bool :=
  (0 <=? a) && (a <? b) && (b <=? Z.of_nat (String.length txt)).

(** Modelled from the spec: the content check of the Span Validator
    (section 4.2, check 2), [text[start:end] == span.text], exact. *)
Definition content_ok (txt : string) (a b : Z) (t : string) : bool :=
  String.eqb (slice txt a b) t.

(** Modelled from the spec: a span passes re-validation by the Fixer when
    both offset checks pass.  The Fix request carries [text],
    [annotations] and [strategy] only, no tag definitions, so the label
    check is not part of it. *)
Definition passes (txt : string) (s : AnnotationEntity) : bool :=
  range_ok txt (start_char s) (end_char s)
  && content_ok txt (start_char s) (end_char s) (text s).

(** Modelled from the spec: the offsets at which [t] occurs in [txt] as a
    span that validates, in ascending order (strategy 2, exact
    re-search).  An empty [t] would give a span with [start = end], which
    is never emitted, so it occurs nowhere. *)
Definition occurrences (txt t : string) : list Z :=
  List.filter
    (fun p => range_ok txt p (p + Z.of_nat (String.length t))
              && content_ok txt p (p + Z.of_nat (String.length t)) t)
    (Z.of_nat <$> (seq 0 (String.length txt))).

(** Modelled from the spec: among several occurrences, the one closest to
    the reported start, the smallest offset on a tie. *)
Fixpoint closest (start best : Z) (ps : list Z) : Z :=
  match ps with
  | [] => best
  | p :: ps' =>
      closest start
        (if Z.abs (p - start) <? Z.abs (best - start) then p else best) ps'
  end.

Definition around (c : Z) (w : nat) : list Z :=
  (fun i => c - Z.of_nat w + Z.of_nat i) <$> (seq 0 (2 * w + 1)).

Section Fuzzy.
(** The specification leaves the similarity measure and the size of the
    neighbourhood open; both are parameters. *)
Variable similar : string -> string -> bool.
Variable window : nat.

(** Modelled from the spec: boundary snap (strategy 3).  The candidates
    are the ranges inside the text whose ends lie within [window] of the
    reported ones; the first whose content is similar to [span.text] is
    taken. *)
Definition snap (txt : string) (s : AnnotationEntity) : option (Z * Z) :=
  List.find
    (fun ab : Z * Z =>
       range_ok txt ab.1 ab.2 && similar (slice txt ab.1 ab.2) (text s))
    (a ← around (start_char s) window;
     b ← around (end_char s) window;
     [(a, b)]).

Inductive strategy := exact_match | closest_occurrence | fuzzy_match.

Inductive outcome :=
| AlreadyCorrect
| Fixed (via : strategy) (matches : nat) (relocated : AnnotationEntity)
| Unfixable.

(** Modelled from the spec: a relocated span keeps label, confidence and
    origin, and its [text] is recomputed from the new offsets. *)
Definition relocate (txt : string) (s : AnnotationEntity) (a b : Z) : AnnotationEntity :=
  {| start_char := a; end_char := b; text := slice txt a b;
     label := label s; confidence := confidence s; source := source s |}.

(** Modelled from the spec: the strategies of section 4.3 in their fixed
    order; a span with [start > end] is unfixable at once. *)
Definition fix_span (txt : string) (s : AnnotationEntity) : outcome :=
  if passes txt s then AlreadyCorrect
  else if end_char s <? start_char s then Unfixable
  else
    let n := Z.of_nat (String.length (text s)) in
    match occurrences txt (text s) with
    | [p] => Fixed exact_match 1 (relocate txt s p (p + n))
    | p :: ps =>
        let q := closest (start_char s) p ps in
        Fixed closest_occurrence (S (length ps)) (relocate txt s q (q + n))
    | [] =>
        match snap txt s with
        | Some (a, b) => Fixed fuzzy_match 0 (relocate txt s a b)
        | None => Unfixable
        end
    end.

(** The span a resolution leaves in the fixed set, if any. *)
Definition kept (s : AnnotationEntity) (o : outcome) : option AnnotationEntity :=
  match o with
  | AlreadyCorrect => Some s
  | Fixed _ _ s' => Some s'
  | Unfixable => None
  end.

Record fix_statistics := {
  total : nat;
  already_correct : nat;
  fixed : nat;
  unfixable : nat;
  multiple_matches : nat;
  strategy_used : string
}.

Record fix_response := {
  fixed_entities : list AnnotationEntity;
  statistics : fix_statistics;
  resolutions : list outcome
}.

Definition is_already_correct (o : outcome) : bool :=
  match o with AlreadyCorrect => true | _ => false end.
Definition is_fixed (o : outcome) : bool :=
  match o with Fixed _ _ _ => true | _ => false end.
Definition is_unfixable (o : outcome) : bool :=
  match o with Unfixable => true | _ => false end.
Definition matches_of (o : outcome) : nat :=
  match o with Fixed closest_occurrence n _ => n | _ => 0%nat end.

(** Modelled from the spec: the Fix operation, input
    [{text, annotations[], strategy}]; spans are handled one by one, in
    order, unfixable ones are left out, and the statistics count the
    resolutions. *)
Definition fix_annotations (txt : string) (strategy_req : string)
    (annotations : list AnnotationEntity) : fix_response :=
  let outs := (fix_span txt) <$> annotations in
  {| fixed_entities :=
       omap (fun so : AnnotationEntity * outcome => kept so.1 so.2)
            (zip annotations outs);
     statistics :=
       {| total := length annotations;
          already_correct := length (List.filter is_already_correct outs);
          fixed := length (List.filter is_fixed outs);
          unfixable := length (List.filter is_unfixable outs);
          multiple_matches := foldr Nat.add 0%nat (matches_of <$> outs);
          strategy_used := strategy_req |};
     resolutions := outs |}.

End Fuzzy.

(** One admissible similarity: the candidate equals [span.text] with its
    surrounding white space removed. *)
Definition trimmed_equal (candidate t : string) : bool :=
  String.eqb candidate (trim t).

End Fixer.

(** ** Tag files ([handleTagsFileUpload]) *)

Definition newline : Ascii.ascii := Ascii.ascii_of_nat 10.
Definition comma : Ascii.ascii := Ascii.ascii_of_nat 44.

(** [s.split(sep)] for a separator of one character: the pieces between
    the separators, always at least one. *)
Fixpoint split_on (sep : Ascii.ascii) (s : string) : list string :=
  match s with
  | EmptyString => [EmptyString]
  | String c r =>
      if Ascii.eqb c sep then EmptyString :: split_on sep r
      else
        match split_on sep r with
        | piece :: pieces => String c piece :: pieces
        | [] => [String c EmptyString]
        end
  end.

(** [s || ""] on a string. *)
Definition or_empty (s : string) : string :=
  if truthy_string s then s else EmptyString.

(** The body of the loop over the lines: a line with at least three
    comma-separated values gives a tag made of the first three, trimmed. *)
Definition parse_line (line : string) : option AnnotationTag :=
  let values := split_on comma line in
  if (3 <=? length values)%nat then
    Some {| tag_name := or_empty (trim (default EmptyString (values !! 0%nat)));
            definition := or_empty (trim (default EmptyString (values !! 1%nat)));
            examples := or_empty (trim (default EmptyString (values !! 2%nat))) |}
  else None.

(** [parsedTags] at the end of [reader.onload]: the loop starts at line 1,
    so the first line is never read. *)
Definition parsedTags (csv : string) : list AnnotationTag :=
  omap parse_line (drop 1 (split_on newline csv)).

Definition handleTagsFileUpload (csv : string) (st : AppState) : AppState :=
  setTags (parsedTags csv) st.

Definition handleTextFileUpload (content : string) (st : AppState) : AppState :=
  setText content st.

(** The character occurs in the string. *)
Fixpoint contains (c : Ascii.ascii) (s : string) : bool :=
  match s with
  | EmptyString => false
  | String c' r => Ascii.eqb c' c || contains c r
  end.

(** A tag file as the page expects it: a header line, then one line
    [tag_name,definition,examples] per tag. *)
Definition csv_row (t : AnnotationTag) : string :=
  tag_name t +:+ String comma (definition t +:+ String comma (examples t)).

Fixpoint csv_lines (l : list AnnotationTag) : string :=
  match l with
  | [] => EmptyString
  | t :: l' => String newline (csv_row t +:+ csv_lines l')
  end.

Definition plain_field (s : string) : Prop :=
  contains comma s = false /\ contains newline s = false.

Definition plain_tag (t : AnnotationTag) : Prop :=
  plain_field (tag_name t) /\ plain_field (definition t)
  /\ plain_field (examples t).

Definition trim_tag (t : AnnotationTag) : AnnotationTag :=
  {| tag_name := trim (tag_name t); definition := trim (definition t);
     examples := trim (examples t) |}.

(** ** The annotated text preview ([renderHighlightedText]) *)

(** [String.prototype.slice]: negative indices count from the end, indices
    are clamped to the string, an empty range gives the empty string. *)
Definition clamp_index (len i : Z) : Z :=
  if i <? 0 then Z.max (len + i) 0 else Z.min i len.

Definition js_slice (s : string) (from to : Z) : string :=
  let len := Z.of_nat (String.length s) in
  let a := clamp_index len from in
  let b := clamp_index len to in
  String.substring (Z.to_nat a) (Z.to_nat (Z.max (b - a) 0)) s.

(** [s.slice(from)]. *)
Definition js_slice_from (s : string) (from : Z) : string :=
  js_slice s from (Z.of_nat (String.length s)).

(** The children of the preview: pieces of text, and one highlighted span
    per entity, which shows [entity.text]. *)
Inductive element :=
| TextNode (s : string)
| EntitySpan (key : nat) (entity : obj) (isSelected : bool).

(** [selectedEntity === entity]. *)
Definition is_selected (selectedEntity : option obj) (entity : obj) : bool :=
  match selectedEntity with
  | Some o => Nat.eqb (oid o) (oid entity)
  | None => false
  end.

(** The [forEach] over the sorted entities, from the entity at [index] on,
    with the current value of [lastEnd]; it gives the elements pushed and
    the final [lastEnd]. *)
Fixpoint render_entities (txt : string) (selectedEntity : option obj)
    (index : nat) (lastEnd : Z) (l : list obj) : list element * Z :=
  match l with
  | [] => ([], lastEnd)
  | entity :: l' =>
      let before :=
        if lastEnd <? start_char entity
        then [TextNode (js_slice txt lastEnd (start_char entity))]
        else [] in
      let rest :=
        render_entities txt selectedEntity (S index) (end_char entity) l' in
      (before
         ++ EntitySpan index entity (is_selected selectedEntity entity)
         :: rest.1,
       rest.2)
  end.

Definition renderHighlightedText (txt : string) (combined : list obj)
    (selectedEntity : option obj) : list element :=
  if negb (truthy_string txt) || (length combined =? 0)%nat then [TextNode txt]
  else
    let sortedEntities := sort_by_start combined in
    let rendered := render_entities txt selectedEntity 0 0 sortedEntities in
    if rendered.2 <? Z.of_nat (String.length txt)
    then rendered.1 ++ [TextNode (js_slice_from txt rendered.2)]
    else rendered.1.

(** What the preview reads, and which entities it highlights. *)
Definition element_text (el : element) : string :=
  match el with
  | TextNode s => s
  | EntitySpan _ entity _ => text entity
  end.

Definition text_content (els : list element) : string :=
  foldr (fun el acc => element_text el +:+ acc) EmptyString els.

Definition highlighted (els : list element) : list obj :=
  omap (fun el => match el with
                  | EntitySpan _ entity _ => Some entity
                  | TextNode _ => None
                  end) els.

(** The span lies inside the text, is not empty, and carries the text of
    its range. *)
Definition matches_text (txt : string) (e : AnnotationEntity) : Prop :=
  0 <= start_char e < end_char e
  /\ end_char e <= Z.of_nat (String.length txt)
  /\ text e = js_slice txt (start_char e) (end_char e).

(** The entities follow one another from [lastEnd] on without overlap,
    each one matching the text. *)
Fixpoint laid_out (txt : string) (lastEnd : Z) (l : list obj) : Prop :=
  match l with
  | [] => True
  | e :: l' =>
      lastEnd <= start_char e /\ matches_text txt e
      /\ laid_out txt (end_char e) l'
  end.

(** The pending selection is either absent, with no selected text, or
    present with a selected text that is not blank. *)
Definition selection_consistent (st : AppState) : Prop :=
  (selectedRange st = None /\ selectedText st = EmptyString)
  \/ (selectedRange st <> None
      /\ truthy_string (trim (selectedText st)) = true).

(** [ValidationComponent] calls the page's [onEntitiesUpdate] with the list
    its [handleFix] took from the response, made of new objects; a run of
    [handleFix] that hands over no list leaves the page as it is. *)
Definition apply_fix (handleFix : gmap string jsval -> fix_effects)
    (result : gmap string jsval) (st : AppState) : AppState :=
  match entities_update (handleFix result) with
  | Some l => onEntitiesUpdate (alloc (heap_top st) l) st
  | None => st
  end.

(** ** Sample data *)

Definition mk_span (a b : Z) (t lbl : string) (src : option string)
  : AnnotationEntity :=
  {| start_char := a; end_char := b; text := t; label := lbl;
     confidence := None; source := src |}.

(** A manual span [10,20) and a model span [15,25). *)
Definition manual_10_20 : obj := Obj 0 (mk_span 10 20 "0123456789" "ORG" (Some "manual")).
Definition model_15_25 : obj := Obj 1 (mk_span 15 25 "5678901234" "ORG" (Some "llm")).

(** Two spans starting at 0, the longer one from the model. *)
Definition model_0_5 : obj := Obj 0 (mk_span 0 5 "Acme " "ORG" (Some "llm")).
Definition manual_0_3 : obj := Obj 1 (mk_span 0 3 "Acm" "ORG" (Some "manual")).

(** A page with a text, one tag, one model span and a pending selection. *)
Definition org_tag : AnnotationTag :=
  {| tag_name := "ORG"; definition := "organisation"; examples := "Acme" |}.

Definition selecting_Corp : list event :=
  [TextEdited "Acme Corp develops gene therapies."; TagsLoaded [org_tag];
   AnnotateOk [mk_span 0 4 "Acme" "ORG" None]; MouseUp "Corp" 5 9].

(** The same selection annotated twice. *)
Definition annotating_Corp_twice : list event :=
  selecting_Corp ++ [AddManual "ORG"; MouseUp "Corp" 5 9; AddManual "ORG"].

(** Both sliders moved to 200. *)
Definition sliders_at_200 : list event :=
  [ChunkSizeMoved 200; OverlapMoved 200].

(** A fix response shaped as the specification describes it. *)
Definition acme : AnnotationEntity := mk_span 0 4 "Acme" "ORG" (Some "llm").

Definition sample_statistics : gmap string jsval :=
  <["total" := JNum 1]> (<["already_correct" := JNum 0]>
  (<["fixed" := JNum 1]> (<["unfixable" := JNum 0]>
  (<["multiple_matches" := JNum 0]>
  (<["strategy_used" := JStr "fuzzy_match"]> ∅))))).

Definition response_with_fixed_entities : gmap string jsval :=
  <["fixed_entities" := JEntities [acme]]>
  (<["fix_statistics" := JObject sample_statistics]> ∅).

(** The same response with the spans under [fixed_annotations]. *)
Definition response_with_fixed_annotations : gmap string jsval :=
  <["fixed_annotations" := JEntities [acme]]>
  (<["fix_statistics" := JObject sample_statistics]> ∅).

(** Texts and spans of the repair scenarios. *)
Definition acme_text : string := "Acme Corp develops gene therapies.".
Definition acme_off_by_one : AnnotationEntity := mk_span 0 5 "Acme" "ORG" (Some "llm").
Definition two_acme_text : string :=
  "Acme Corp signed with the partner firm, Acme Labs.".
Definition acme_near_38 : AnnotationEntity := mk_span 38 42 "Acme" "ORG" (Some "llm").
Definition acme_padded : AnnotationEntity := mk_span 5 11 "Corp  " "ORG" (Some "llm").
Definition acme_absent : AnnotationEntity := mk_span 0 4 "Zeta" "ORG" (Some "llm").
Definition acme_reversed : AnnotationEntity := mk_span 9 5 "Corp" "ORG" (Some "llm").

(** A tag file with a header, two tags and a line that is too short. *)
Definition gene_tag : AnnotationTag :=
  {| tag_name := "GENE"; definition := "a gene"; examples := "BRCA1" |}.

Definition corp_span : obj := Obj 1 (mk_span 5 9 "Corp" "ORG" (Some "manual")).
Definition acme_span : obj := Obj 0 acme.

(** * Properties *)

(** ** The sort and the combined list *)

Lemma insert_by_start_perm x l : insert_by_start x l ≡ₚ x :: l.
Proof.
  induction l as [|y l IH]; simpl; [done|].
  destruct (start_char x - start_char y <=? 0); [done|].
  rewrite IH. apply perm_swap.
Qed.

Lemma sort_by_start_perm l : sort_by_start l ≡ₚ l.
Proof.
  induction l as [|x l IH]; simpl; [done|].
  rewrite insert_by_start_perm. by rewrite IH.
Qed.

Lemma insert_by_start_sorted x l :
  StronglySorted le_start l -> StronglySorted le_start (insert_by_start x l).
Proof.
  induction 1 as [|y l Hl IH Hy]; simpl.
  - repeat constructor.
  - destruct (Z.leb_spec (start_char x - start_char y) 0) as [Hle|Hgt].
    + constructor; [by constructor|].
      constructor; [unfold le_start; lia|].
      eapply Forall_impl; [exact Hy|]. unfold le_start. intros z Hz. lia.
    + constructor; [exact IH|].
      rewrite insert_by_start_perm. constructor; [unfold le_start; lia|done].
Qed.

Lemma sort_by_start_sorted l : StronglySorted le_start (sort_by_start l).
Proof.
  induction l as [|x l IH]; simpl; [constructor|].
  by apply insert_by_start_sorted.
Qed.

Lemma StronglySorted_lookup {A} (R : A -> A -> Prop) (l : list A) :
  StronglySorted R l ->
  forall (i j : nat) a b,
    (i < j)%nat -> l !! i = Some a -> l !! j = Some b -> R a b.
Proof.
  induction 1 as [|x l Hl IH Hx]; intros i j a b Hij Hi Hj.
  - by rewrite lookup_nil in Hi.
  - destruct j as [|j]; [lia|]. simpl in Hj.
    destruct i as [|i]; simpl in Hi.
    + injection Hi as <-. rewrite Forall_forall in Hx.
      apply Hx. eapply list_elem_of_lookup_2, Hj.
    + eapply (IH i j); [lia|done..].
Qed.

(** The sort is stable: spans with the same start keep their order. *)
Lemma insert_by_start_stable (k : Z) x l :
  StronglySorted le_start l ->
  List.filter (fun e : obj => start_char e =? k) (insert_by_start x l)
  = List.filter (fun e : obj => start_char e =? k) (x :: l).
Proof.
  induction 1 as [|y l Hl IH Hy]; [done|]. simpl.
  destruct (Z.leb_spec (start_char x - start_char y) 0) as [Hle|Hgt]; [done|].
  simpl. rewrite IH. simpl.
  destruct (Z.eqb_spec (start_char x) k), (Z.eqb_spec (start_char y) k);
    try done; lia.
Qed.

Lemma sort_by_start_stable (k : Z) l :
  List.filter (fun e : obj => start_char e =? k) (sort_by_start l)
  = List.filter (fun e : obj => start_char e =? k) l.
Proof.
  induction l as [|x l IH]; [done|]. simpl sort_by_start.
  rewrite insert_by_start_stable by apply sort_by_start_sorted.
  simpl. by rewrite IH.
Qed.

(** Pairwise properties that are symmetric do not depend on the order. *)
Lemma ForallOrdPairs_perm {A} (R : A -> A -> Prop) (l l' : list A) :
  (forall a b, R a b -> R b a) ->
  l ≡ₚ l' -> ForallOrdPairs R l -> ForallOrdPairs R l'.
Proof.
  intros Hsym. induction 1 as [|x l l' Hp IH|x y l|l l' l'' _ IH1 _ IH2];
    intros H.
  - constructor.
  - inversion H as [|? ? Hx Hl]; subst. constructor; [|by apply IH].
    rewrite Forall_forall in *. intros z Hz. apply Hx. by rewrite Hp.
  - inversion H as [|? ? Hy Hl]; subst.
    inversion Hl as [|? ? Hx Hl']; subst.
    inversion Hy as [|? ? Hyx Hyl]; subst.
    constructor; [constructor; [by apply Hsym|done]|].
    by constructor.
  - auto.
Qed.

Lemma ForallOrdPairs_fmap {A B} (f : A -> B) (R : B -> B -> Prop) (l : list A) :
  ForallOrdPairs R (f <$> l) <-> ForallOrdPairs (fun a b => R (f a) (f b)) l.
Proof.
  induction l as [|x l IH]; [split; constructor|].
  rewrite fmap_cons.
  split; intros H; inversion H as [|? ? Hx Hl]; subst; constructor.
  - rewrite Forall_fmap in Hx. exact Hx.
  - by apply IH.
  - rewrite Forall_fmap. exact Hx.
  - by apply IH.
Qed.

Lemma pairwise_disjoint_ranges l :
  pairwise_disjoint l
  <-> ForallOrdPairs (fun r1 r2 => ranges_meet r1 r2 = false) (range_of <$> l).
Proof. unfold pairwise_disjoint. by rewrite ForallOrdPairs_fmap. Qed.

Lemma ranges_meet_sym r1 r2 : ranges_meet r1 r2 = false -> ranges_meet r2 r1 = false.
Proof. unfold ranges_meet. rewrite !Z.ltb_ge. lia. Qed.

(** [overlaps] holds exactly when some offset lies in both ranges. *)
Lemma overlaps_spec (a b : AnnotationEntity) :
  overlaps a b = true
  <-> exists x : Z,
        start_char a <= x < end_char a /\ start_char b <= x < end_char b.
Proof.
  unfold overlaps. rewrite Z.ltb_lt. split.
  - intros H. exists (Z.max (start_char a) (start_char b)). lia.
  - intros (x & Ha & Hb). lia.
Qed.

Lemma alloc_fields base l : fields <$> (alloc base l) = l.
Proof.
  unfold alloc. revert base. induction l as [|e l IH]; intros base; [done|].
  simpl. f_equal. rewrite <- (IH (S base)) at 2.
  f_equal. apply imap_ext. intros i x _. simpl. f_equal. lia.
Qed.

Lemma alloc_length base l : length (alloc base l) = length l.
Proof. apply length_imap. Qed.

Lemma alloc_oid base l (o : obj) :
  o ∈ alloc base l -> (base <= oid o < base + length l)%nat.
Proof.
  unfold alloc. intros [i [x [-> Hi]]]%elem_of_lookup_imap.
  apply lookup_lt_Some in Hi. simpl. lia.
Qed.

Lemma spread_map_ranges base s l :
  range_of <$> (spread_map base s l) = range_of <$> l.
Proof.
  unfold spread_map.
  rewrite (list_fmap_compose fields
             (fun e : AnnotationEntity => (start_char e, end_char e))).
  rewrite alloc_fields, <- list_fmap_compose. done.
Qed.

Lemma combinedEntities_fields base ents mans :
  fields <$> (combinedEntities base ents mans)
  ≡ₚ ((fun e : obj => with_source "llm" e) <$> ents)
     ++ ((fun e : obj => with_source "manual" e) <$> mans).
Proof.
  unfold combinedEntities. rewrite sort_by_start_perm, fmap_app.
  unfold spread_map. by rewrite !alloc_fields.
Qed.

Lemma combinedEntities_ranges base ents mans :
  range_of <$> (combinedEntities base ents mans) ≡ₚ range_of <$> (ents ++ mans).
Proof.
  unfold combinedEntities. rewrite sort_by_start_perm, !fmap_app.
  by rewrite !spread_map_ranges.
Qed.

(** C1, as stated, fails: the combined list of the manual span [10,20) and
    the model span [15,25) still holds both, and they intersect. *)
Lemma combinedEntities_overlap_counterexample :
  ~ pairwise_disjoint (combinedEntities 2 [model_15_25] [manual_10_20]).
Proof.
  intros H. inversion H as [|x l Hx Hl]; subst.
  inversion Hx as [|y l' Hxy _]; subst.
  revert Hxy. vm_compute. discriminate.
Qed.

(** C1, amended: [combinedEntities] drops nothing.  Its output holds, up to
    order, exactly the source-tagged copies of the LLM and manual spans, so
    its ranges are pairwise disjoint exactly when those of the two input
    lists taken together are. *)
Theorem combinedEntities_retains_every_span
    (base : nat) (ents mans : list obj) :
  fields <$> combinedEntities base ents mans
    ≡ₚ ((fun e : obj => with_source "llm" e) <$> ents)
       ++ ((fun e : obj => with_source "manual" e) <$> mans)
  /\ (pairwise_disjoint (combinedEntities base ents mans)
      <-> pairwise_disjoint (ents ++ mans)).
Proof.
  split; [apply combinedEntities_fields|].
  rewrite !pairwise_disjoint_ranges.
  split; apply ForallOrdPairs_perm;
    auto using ranges_meet_sym, combinedEntities_ranges.
  symmetry. apply combinedEntities_ranges.
Qed.

(** C3, as stated, fails: with a model span [0,5) and a manual span [0,3)
    the combined list keeps the longer span first. *)
Lemma combinedEntities_tie_counterexample :
  ~ sorted_start_then_end (combinedEntities 2 [model_0_5] [manual_0_3]).
Proof.
  intros H.
  destruct (H 0%nat 1%nat _ _ ltac:(lia) eq_refl eq_refl) as [Hlt|[_ Hle]];
    vm_compute in *; congruence.
Qed.

(** C3, amended: the combined list is sorted by [start_char] ascending; for
    every pair of spans [a], [b] of the output with [a] before [b],
    [a.start_char <= b.start_char].  Nothing is promised about the ends of
    spans that start together. *)
Theorem combinedEntities_sorted_by_start
    (base : nat) (ents mans : list obj) (i j : nat) (a b : obj) :
  (i < j)%nat ->
  combinedEntities base ents mans !! i = Some a ->
  combinedEntities base ents mans !! j = Some b ->
  start_char a <= start_char b.
Proof.
  intros Hij Ha Hb.
  exact (StronglySorted_lookup le_start _ (sort_by_start_sorted _)
           i j a b Hij Ha Hb).
Qed.

Lemma combinedEntities_sorted_by_start_witness :
  start_char (with_source "manual" manual_10_20)
  <= start_char (with_source "llm" model_15_25).
Proof.
  apply (combinedEntities_sorted_by_start 2 [model_15_25] [manual_10_20]
           0 1 (Obj 3 (with_source "manual" manual_10_20))
               (Obj 2 (with_source "llm" model_15_25)));
    [lia | reflexivity | reflexivity].
Defined.

(** ** Manual annotations *)

Lemma reachable_run evs st :
  reachable st -> all_enabled evs st -> reachable (run evs st).
Proof.
  revert st. induction evs as [|ev evs IH]; intros st Hst Hen; [done|].
  destruct Hen as [Hev Hen]. apply IH; [by constructor|done].
Qed.

Lemma selecting_Corp_enabled : all_enabled selecting_Corp initialState.
Proof. vm_compute. repeat split; discriminate. Qed.

Lemma annotating_Corp_twice_enabled :
  all_enabled annotating_Corp_twice initialState.
Proof.
  repeat split; try reflexivity; try (vm_compute; discriminate);
    try (apply list_elem_of_here).
Qed.

(** C7: the entity built by [handleAddManualAnnotation] from the pending
    selection and any label has confidence 1.0 and source "manual". *)
Theorem manual_annotation_confidence
    (st : AppState) (lbl : string) (range : Z * Z) :
  selectedRange st = Some range ->
  truthy_string (trim (selectedText st)) = true ->
  exists e : obj,
    manualEntities (handleAddManualAnnotation lbl st)
      = manualEntities st ++ [e]
    /\ confidence e = Some 1%Qc /\ source e = Some "manual"
    /\ start_char e = range.1 /\ end_char e = range.2
    /\ text e = selectedText st /\ label e = lbl.
Proof.
  intros Hrange Htext. unfold handleAddManualAnnotation.
  rewrite Hrange, Htext. simpl. eexists. split; [reflexivity|]. by simpl.
Qed.

Lemma manual_annotation_confidence_witness :
  exists e : obj,
    manualEntities (handleAddManualAnnotation "ORG" (run selecting_Corp initialState))
      = manualEntities (run selecting_Corp initialState) ++ [e]
    /\ confidence e = Some 1%Qc /\ source e = Some "manual"
    /\ start_char e = 5 /\ end_char e = 9
    /\ text e = "Corp" /\ label e = "ORG".
Proof.
  apply (manual_annotation_confidence (run selecting_Corp initialState)
           "ORG" (5, 9)); reflexivity.
Defined.

(** C4, as stated, fails: annotating the same selection twice is possible
    and leaves two manual spans with the offsets (5, 9). *)
Lemma duplicate_manual_span_counterexample :
  reachable (run annotating_Corp_twice initialState)
  /\ ~ NoDup (manual_ranges (run annotating_Corp_twice initialState)).
Proof.
  split.
  - apply reachable_run; [constructor|apply annotating_Corp_twice_enabled].
  - change (manual_ranges (run annotating_Corp_twice initialState))
      with [(5, 9); (5, 9)].
    intros H. apply NoDup_cons in H as [Hin _]. apply Hin. left.
Qed.

(** C4, amended: [handleAddManualAnnotation] appends one manual span with
    the selected offsets whether or not a manual span already has them; the
    manual spans have pairwise distinct offsets afterwards exactly when they
    had before and the selected range is not yet the range of one. *)
Theorem manual_ranges_after_add
    (st : AppState) (lbl : string) (range : Z * Z) :
  selectedRange st = Some range ->
  truthy_string (trim (selectedText st)) = true ->
  manual_ranges (handleAddManualAnnotation lbl st) = manual_ranges st ++ [range]
  /\ (NoDup (manual_ranges (handleAddManualAnnotation lbl st))
      <-> NoDup (manual_ranges st) /\ range ∉ manual_ranges st).
Proof.
  intros Hrange Htext.
  assert (manual_ranges (handleAddManualAnnotation lbl st)
          = manual_ranges st ++ [range]) as ->.
  { unfold manual_ranges, handleAddManualAnnotation.
    rewrite Hrange, Htext. simpl. rewrite fmap_app. simpl.
    by destruct range. }
  split; [done|].
  rewrite NoDup_app. split.
  - intros (Hnd & Hdisj & _). split; [done|].
    intros Hin. apply (Hdisj _ Hin). left.
  - intros [Hnd Hnotin]. split; [done|]. split.
    + intros x Hx [->|[]%elem_of_nil]%elem_of_cons. done.
    + apply NoDup_singleton.
Qed.

Lemma manual_ranges_after_add_witness :
  manual_ranges (handleAddManualAnnotation "ORG" (run selecting_Corp initialState))
    = manual_ranges (run selecting_Corp initialState) ++ [(5, 9)]
  /\ (NoDup (manual_ranges
               (handleAddManualAnnotation "ORG" (run selecting_Corp initialState)))
      <-> NoDup (manual_ranges (run selecting_Corp initialState))
          /\ (5, 9) ∉ manual_ranges (run selecting_Corp initialState)).
Proof.
  apply (manual_ranges_after_add (run selecting_Corp initialState)
           "ORG" (5, 9)); reflexivity.
Defined.

(** ** Chunking settings *)

Lemma handle_settings ev st :
  (chunkSize (handle ev st) = chunkSize st
   \/ exists v, ev = ChunkSizeMoved v /\ chunkSize (handle ev st) = v)
  /\ (overlap (handle ev st) = overlap st
      \/ exists v, ev = OverlapMoved v /\ overlap (handle ev st) = v).
Proof.
  destruct ev; simpl;
    unfold onMouseUp, handleAddManualAnnotation, handleRemoveEntity;
    repeat case_match; simpl; split; eauto.
Qed.

Lemma reachable_settings st :
  reachable st ->
  slider_value 200 4000 100 (chunkSize st)
  /\ slider_value 0 200 10 (overlap st).
Proof.
  induction 1 as [|st ev Hst [IHc IHo] Hen].
  - split; [exists 8|exists 5]; simpl; lia.
  - destruct (handle_settings ev st) as [[->|(v & -> & ->)] [->|(w & Hw & ->)]];
      try discriminate; auto.
    subst ev. auto.
Qed.

(** C5, as stated, fails: both sliders can be moved to 200, and then the
    overlap is not below the chunk size. *)
Lemma overlap_equals_chunkSize_counterexample :
  reachable (run sliders_at_200 initialState)
  /\ ~ (0 <= overlap (run sliders_at_200 initialState)
          < chunkSize (run sliders_at_200 initialState)).
Proof.
  split.
  - apply reachable_run; [constructor|].
    repeat split; [exists 0|exists 20]; lia.
  - simpl. lia.
Qed.

(** C5, amended: every reachable pair of settings satisfies
    [0 <= overlap <= 200 <= chunkSize <= 4000], so the overlap never exceeds
    the chunk size, and the two are equal only when both are 200. *)
Theorem reachable_overlap_le_chunkSize (st : AppState) :
  reachable st ->
  0 <= overlap st <= 200 /\ 200 <= chunkSize st <= 4000
  /\ (overlap st < chunkSize st
      \/ (overlap st = 200 /\ chunkSize st = 200)).
Proof.
  intros [(k & Hk & Hc & Hcmax) (m & Hm & Ho & Homax)]%reachable_settings.
  lia.
Qed.

Lemma reachable_overlap_le_chunkSize_witness :
  0 <= overlap (run sliders_at_200 initialState) <= 200
  /\ 200 <= chunkSize (run sliders_at_200 initialState) <= 4000
  /\ (overlap (run sliders_at_200 initialState)
        < chunkSize (run sliders_at_200 initialState)
      \/ (overlap (run sliders_at_200 initialState) = 200
          /\ chunkSize (run sliders_at_200 initialState) = 200)).
Proof.
  apply (reachable_overlap_le_chunkSize (run sliders_at_200 initialState)).
  apply (reachable_step (handle (ChunkSizeMoved 200) initialState)
           (OverlapMoved 200)).
  - apply (reachable_step initialState (ChunkSizeMoved 200)).
    + apply reachable_init.
    + exists 0. simpl. lia.
  - exists 20. simpl. lia.
Defined.

(** ** Token recommendations *)

Lemma tokens_ordered_iff (c : Z) :
  tokens_ordered (tokenRecommendations c) <-> 197 <= c <= 16004.
Proof.
  unfold tokens_ordered, tokenRecommendations, ceil_div. simpl.
  split; intros H; Z.div_mod_to_equations; lia.
Qed.

(** C10: for every chunk size the slider allows, from 200 to 4000, the
    recommendations satisfy [min_tokens <= default_tokens <=
    max_tokens_limit]; for chunk sizes below 134 the ordering fails. *)
Theorem tokenRecommendations_ordered (c : Z) :
  (200 <= c <= 4000 -> tokens_ordered (tokenRecommendations c))
  /\ (c < 134 -> ~ tokens_ordered (tokenRecommendations c)).
Proof.
  rewrite tokens_ordered_iff. lia.
Qed.

Lemma tokenRecommendations_ordered_witness :
  tokens_ordered (tokenRecommendations 1000)
  /\ ~ tokens_ordered (tokenRecommendations 100).
Proof.
  split.
  - apply (tokenRecommendations_ordered 1000). lia.
  - apply (tokenRecommendations_ordered 100). lia.
Defined.

(** ** Removing an entity *)

Lemma heap_next_le_top st : (heap_next st <= heap_top st)%nat.
Proof. unfold heap_top. lia. Qed.

Lemma elem_of_filter_bool {A} (f : A -> bool) (l : list A) (x : A) :
  x ∈ List.filter f l <-> x ∈ l /\ f x = true.
Proof. rewrite !list_elem_of_In. apply filter_In. Qed.

Lemma filter_bool_all {A} (f : A -> bool) (l : list A) :
  (forall x, x ∈ l -> f x = true) -> List.filter f l = l.
Proof.
  induction l as [|x l IH]; intros H; [done|]. simpl.
  rewrite (H x) by left. f_equal. apply IH. intros y Hy. apply H. by right.
Qed.

Lemma handle_stored_below ev st :
  stored_below st -> stored_below (handle ev st).
Proof.
  intros Hst. pose proof (heap_next_le_top st) as Hle.
  assert (forall o, o ∈ entities st -> (oid o < heap_next st)%nat) as He.
  { intros o Ho. apply Hst, elem_of_app. by left. }
  assert (forall o, o ∈ manualEntities st -> (oid o < heap_next st)%nat) as Hm.
  { intros o Ho. apply Hst, elem_of_app. by right. }
  destruct ev; simpl;
    unfold onMouseUp, handleAddManualAnnotation, handleRemoveEntity;
    repeat case_match; try done;
    intros o; simpl; rewrite ?elem_of_app, ?elem_of_filter_bool;
    rewrite ?list_elem_of_singleton.
  all: try (intros [Ho|Ho]; [apply He in Ho|apply Hm in Ho]; lia).
  - intros [Ho%alloc_oid|Ho%Hm]; lia.
  - intros [Ho%He|[Ho%Hm| ->]]; simpl; lia.
  - intros [Ho%He|[Ho%Hm _]]; lia.
  - intros [[Ho%He _]|Ho%Hm]; lia.
  - rewrite alloc_length.
    intros [[Ho%alloc_oid _]|[Ho%alloc_oid _]]; lia.
Qed.

Lemma reachable_stored_below st : reachable st -> stored_below st.
Proof.
  induction 1 as [|st ev _ IH _].
  - intros o Ho. simpl in Ho. by apply elem_of_nil in Ho.
  - by apply handle_stored_below.
Qed.

Lemma combinedOf_fresh st (o : obj) :
  o ∈ combinedOf st -> (heap_next st <= oid o)%nat.
Proof.
  unfold combinedOf, combinedEntities, spread_map.
  rewrite sort_by_start_perm, elem_of_app.
  intros [Ho%alloc_oid|Ho%alloc_oid]; lia.
Qed.

(** C8: for an entity taken from the combined list of a reachable state,
    [handleRemoveEntity] leaves both the LLM list and the manual list as
    they were: the copy is a different object from every stored one. *)
Theorem handleRemoveEntity_no_effect (st : AppState) (entity : obj) :
  reachable st ->
  entity ∈ combinedOf st ->
  entities (handleRemoveEntity entity st) = entities st
  /\ manualEntities (handleRemoveEntity entity st) = manualEntities st.
Proof.
  intros Hst%reachable_stored_below Hfresh%combinedOf_fresh.
  assert (forall o, o ∈ entities st ++ manualEntities st ->
                    strict_ne o entity = true) as Hne.
  { intros o Ho%Hst. unfold strict_ne.
    apply negb_true_iff, Nat.eqb_neq. lia. }
  unfold handleRemoveEntity. destruct (is_manual entity); simpl.
  - split; [done|]. apply filter_bool_all.
    intros o Ho. apply Hne, elem_of_app. by right.
  - split; [|done]. apply filter_bool_all.
    intros o Ho. apply Hne, elem_of_app. by left.
Qed.

Lemma handleRemoveEntity_no_effect_witness :
  entities (handleRemoveEntity (Obj 2 (mk_span 0 4 "Acme" "ORG" (Some "llm")))
              (run selecting_Corp initialState))
    = entities (run selecting_Corp initialState)
  /\ manualEntities
       (handleRemoveEntity (Obj 2 (mk_span 0 4 "Acme" "ORG" (Some "llm")))
          (run selecting_Corp initialState))
     = manualEntities (run selecting_Corp initialState).
Proof.
  apply (handleRemoveEntity_no_effect (run selecting_Corp initialState)).
  - apply reachable_run; [apply reachable_init|apply selecting_Corp_enabled].
  - vm_compute. left.
Defined.

(** ** Writing fixed entities back *)

Lemma is_llm_true (e : AnnotationEntity) :
  is_llm e = true <-> source e = Some "llm".
Proof. unfold is_llm. apply bool_decide_eq_true. Qed.

Lemma is_manual_true (e : AnnotationEntity) :
  is_manual e = true <-> source e = Some "manual".
Proof. unfold is_manual. apply bool_decide_eq_true. Qed.

Lemma split_by_source_perm (l : list obj) :
  Forall tagged l ->
  List.filter (fun e : obj => is_llm e) l
    ++ List.filter (fun e : obj => is_manual e) l ≡ₚ l.
Proof.
  induction 1 as [|x l [Hx|Hx] _ IH]; [done|..]; simpl.
  - rewrite (proj2 (is_llm_true x) Hx).
    destruct (is_manual x) eqn:Hm.
    { apply is_manual_true in Hm. congruence. }
    simpl. by rewrite IH.
  - rewrite (proj2 (is_manual_true x) Hx).
    destruct (is_llm x) eqn:Hl.
    { apply is_llm_true in Hl. congruence. }
    rewrite <- Permutation_middle. by rewrite IH.
Qed.

(** C9: after [onEntitiesUpdate] the two lists hold exactly the updated
    entities whose source is "llm" or "manual"; an entity with any other
    source, or none, is in neither list, and the two lists together make up
    the updated list exactly when every updated entity carries one of the
    two sources. *)
Theorem onEntitiesUpdate_keeps_tagged_only
    (updatedEntities : list obj) (st : AppState) :
  (forall e : obj,
     e ∈ entities (onEntitiesUpdate updatedEntities st)
         ++ manualEntities (onEntitiesUpdate updatedEntities st)
     <-> e ∈ updatedEntities /\ tagged e)
  /\ (entities (onEntitiesUpdate updatedEntities st)
        ++ manualEntities (onEntitiesUpdate updatedEntities st)
        ≡ₚ updatedEntities
      <-> Forall tagged updatedEntities).
Proof.
  assert (forall e : obj,
     e ∈ entities (onEntitiesUpdate updatedEntities st)
         ++ manualEntities (onEntitiesUpdate updatedEntities st)
     <-> e ∈ updatedEntities /\ tagged e) as Hkept.
  { intros e. simpl. rewrite elem_of_app, !elem_of_filter_bool.
    rewrite is_llm_true, is_manual_true. unfold tagged. tauto. }
  split; [exact Hkept|]. split.
  - intros Hperm. apply Forall_forall. intros e He.
    rewrite <- Hperm in He. by apply Hkept in He as [_ ?].
  - apply split_by_source_perm.
Qed.

(** ** The Fix call *)

(** C6, as stated, fails: on a response carrying the repaired spans under
    [fixed_entities] and the six statistics under [fix_statistics], the
    component that reports the statistics updates no entity, and the
    component that reads [fixed_entities] reports no statistics. *)
Lemma fix_contract_counterexample :
  ~ fix_contract_at ValidationComponent2.handleFix
      response_with_fixed_entities [acme] sample_statistics
  /\ ~ fix_contract_at ValidationComponent1.handleFix
        response_with_fixed_entities [acme] sample_statistics.
Proof.
  split; intros H; destruct (H eq_refl eq_refl) as [Hupd Halert].
  - vm_compute in Hupd. discriminate.
  - vm_compute in Halert. discriminate.
Qed.

Lemma prop_lookup (k : string) (m : gmap string jsval) (v : jsval) :
  m !! k = Some v -> prop k (JObject m) = v.
Proof. intros H. unfold prop. by rewrite H. Qed.

(** C6, amended: the component that reports [fix_statistics] with its six
    fields takes the repaired spans from the key [fixed_annotations]; the
    other component takes them from [fixed_entities], stores the response
    as validation result and reports no statistics. *)
Theorem handleFix_keys
    (result stats : gmap string jsval) (es : list AnnotationEntity) :
  (result !! "fixed_annotations" = Some (JEntities es) ->
   result !! "fix_statistics" = Some (JObject stats) ->
   ValidationComponent2.handleFix result =
     {| entities_update := Some es; validation_result := None;
        alert :=
          Some (FixCompleted (prop "total" (JObject stats))
                  (prop "already_correct" (JObject stats))
                  (prop "fixed" (JObject stats))
                  (prop "unfixable" (JObject stats))
                  (js_or (prop "multiple_matches" (JObject stats)) (JNum 0))
                  (prop "strategy_used" (JObject stats))) |})
  /\ (result !! "fixed_entities" = Some (JEntities es) ->
      ValidationComponent1.handleFix result =
        {| entities_update := Some es; validation_result := Some result;
           alert := None |}).
Proof.
  split.
  - intros Hes Hstats.
    unfold ValidationComponent2.handleFix, ValidationComponent2.stats_alert.
    by rewrite (prop_lookup _ _ _ Hes), (prop_lookup _ _ _ Hstats).
  - intros Hes. unfold ValidationComponent1.handleFix.
    by rewrite (prop_lookup _ _ _ Hes).
Qed.

Lemma handleFix_keys_witness :
  ValidationComponent2.handleFix response_with_fixed_annotations =
    {| entities_update := Some [acme]; validation_result := None;
       alert :=
         Some (FixCompleted (JNum 1) (JNum 0) (JNum 1) (JNum 0) (JNum 0)
                 (JStr "fuzzy_match")) |}
  /\ ValidationComponent1.handleFix response_with_fixed_entities =
       {| entities_update := Some [acme];
          validation_result := Some response_with_fixed_entities;
          alert := None |}.
Proof.
  split.
  - apply (handleFix_keys response_with_fixed_annotations sample_statistics
             [acme]); reflexivity.
  - apply (handleFix_keys response_with_fixed_entities sample_statistics
             [acme]); reflexivity.
Defined.

(** ** The span fixer *)

Section FixerProperties.
Import Fixer.
Variable similar : string -> string -> bool.
Variable window : nat.

Lemma relocate_passes txt s a b :
  range_ok txt a b = true -> passes txt (relocate txt s a b) = true.
Proof.
  intros H. unfold passes, content_ok. simpl.
  rewrite H. simpl. apply String.eqb_refl.
Qed.

Lemma occurrences_range_ok txt t p :
  p ∈ occurrences txt t ->
  range_ok txt p (p + Z.of_nat (String.length t)) = true.
Proof.
  unfold occurrences. rewrite elem_of_filter_bool.
  intros [_ [H _]%andb_true_iff]. exact H.
Qed.

Lemma closest_elem start best ps : closest start best ps ∈ best :: ps.
Proof.
  revert best. induction ps as [|p ps IH]; intros best; simpl; [left|].
  specialize (IH (if Z.abs (p - start) <? Z.abs (best - start)
                  then p else best)).
  destruct (Z.abs (p - start) <? Z.abs (best - start));
    apply elem_of_cons in IH as [->|IH].
  - right. left.
  - right. by right.
  - left.
  - right. by right.
Qed.

Lemma snap_range_ok txt s a b :
  snap similar window txt s = Some (a, b) -> range_ok txt a b = true.
Proof.
  unfold snap. intros [_ [H _]%andb_true_iff]%find_some. exact H.
Qed.

(** Round trip: whatever the fixer leaves in the fixed set validates. *)
Lemma fix_span_kept_passes txt s s' :
  kept s (fix_span similar window txt s) = Some s' -> passes txt s' = true.
Proof.
  unfold fix_span. destruct (passes txt s) eqn:Hs; simpl.
  { by intros [= <-]. }
  destruct (end_char s <? start_char s); [done|].
  destruct (occurrences txt (text s)) as [|p ps] eqn:Hocc.
  - destruct (snap similar window txt s) as [[a b]|] eqn:Hsnap; [|done].
    simpl. intros [= <-]. eapply relocate_passes, snap_range_ok, Hsnap.
  - assert (forall q, q ∈ p :: ps ->
              passes txt (relocate txt s q (q + Z.of_nat (String.length (text s))))
              = true) as Hq.
    { intros q Hq. apply relocate_passes, occurrences_range_ok.
      by rewrite Hocc. }
    destruct ps as [|p' ps]; simpl; intros [= <-]; apply Hq.
    + left.
    + apply (closest_elem (start_char s) p (p' :: ps)).
Qed.

Lemma fix_span_of_passing txt s :
  passes txt s = true -> fix_span similar window txt s = AlreadyCorrect.
Proof. intros H. unfold fix_span. by rewrite H. Qed.

Lemma fixed_entities_pass txt strat spans :
  Forall (fun s => passes txt s = true)
    (fixed_entities (fix_annotations similar window txt strat spans)).
Proof.
  simpl. induction spans as [|s spans IH]; simpl; [constructor|].
  destruct (kept s (fix_span similar window txt s)) as [s'|] eqn:Hk; [|done].
  constructor; [|done]. eapply fix_span_kept_passes, Hk.
Qed.

Lemma fix_annotations_of_passing txt strat spans :
  Forall (fun s => passes txt s = true) spans ->
  fix_annotations similar window txt strat spans =
    {| fixed_entities := spans;
       statistics :=
         {| total := length spans; already_correct := length spans;
            fixed := 0; unfixable := 0; multiple_matches := 0;
            strategy_used := strat |};
       resolutions := replicate (length spans) AlreadyCorrect |}.
Proof.
  intros Hall. unfold fix_annotations. cbv zeta.
  assert (fix_span similar window txt <$> spans
          = replicate (length spans) AlreadyCorrect) as ->.
  { induction Hall as [|s spans Hs _ IH]; [done|].
    by rewrite fmap_cons, IH, (fix_span_of_passing _ _ Hs). }
  clear Hall. f_equal; [|f_equal].
  - induction spans as [|s spans IH]; [done|]. simpl. by f_equal.
  - induction spans as [|s spans IH]; [done|]. simpl. by f_equal.
  - induction spans as [|s spans IH]; [done|]. done.
  - induction spans as [|s spans IH]; [done|]. done.
  - induction spans as [|s spans IH]; [done|]. done.
Qed.

End FixerProperties.

(** C2: running the fixer on its own output returns that output unchanged;
    the second run resolves every span as already correct, fixes nothing,
    and finds nothing unfixable, so no span is dropped. *)
Theorem fix_annotations_idempotent
    (similar : string -> string -> bool) (window : nat)
    (txt strat : string) (spans : list AnnotationEntity) :
  let once := Fixer.fix_annotations similar window txt strat spans in
  let twice :=
    Fixer.fix_annotations similar window txt strat (Fixer.fixed_entities once) in
  Fixer.fixed_entities twice = Fixer.fixed_entities once
  /\ Fixer.resolutions twice
     = replicate (length (Fixer.fixed_entities once)) Fixer.AlreadyCorrect
  /\ Fixer.statistics twice
     = {| Fixer.total := length (Fixer.fixed_entities once);
          Fixer.already_correct := length (Fixer.fixed_entities once);
          Fixer.fixed := 0; Fixer.unfixable := 0;
          Fixer.multiple_matches := 0; Fixer.strategy_used := strat |}.
Proof.
  intros once twice. subst twice.
  rewrite (fix_annotations_of_passing similar window txt strat
             (Fixer.fixed_entities once)
             (fixed_entities_pass similar window txt strat spans)).
  done.
Qed.

(** The repair scenarios of the specification, run on the model with the
    trimmed-text similarity and a window of 2. *)
Example fix_off_by_one_end :
  Fixer.fix_span Fixer.trimmed_equal 2 acme_text acme_off_by_one
  = Fixer.Fixed Fixer.exact_match 1 acme.
Proof. reflexivity. Qed.

Example fix_closest_of_two :
  Fixer.fix_span Fixer.trimmed_equal 2 two_acme_text acme_near_38
  = Fixer.Fixed Fixer.closest_occurrence 2
      (mk_span 40 44 "Acme" "ORG" (Some "llm")).
Proof. reflexivity. Qed.

Example fix_batch :
  let r := Fixer.fix_annotations Fixer.trimmed_equal 2 acme_text "fuzzy_match"
             [acme; acme_reversed; acme_off_by_one; acme_absent; acme_padded] in
  Fixer.fixed_entities r
    = [acme; acme; mk_span 5 9 "Corp" "ORG" (Some "llm")]
  /\ Fixer.statistics r
     = {| Fixer.total := 5; Fixer.already_correct := 1; Fixer.fixed := 2;
          Fixer.unfixable := 2; Fixer.multiple_matches := 0;
          Fixer.strategy_used := "fuzzy_match" |}.
Proof. split; reflexivity. Qed.

(** ** Sanity checks *)

Example trim_blank :
  trim (" " +:+ String (Ascii.ascii_of_nat 9) " ") = EmptyString.
Proof. reflexivity. Qed.

Example trim_inner : trim "  gene  therapies " = "gene  therapies".
Proof. reflexivity. Qed.

Example combined_sample :
  fields <$> combinedEntities 2 [model_15_25] [manual_10_20]
  = [with_source "manual" manual_10_20; with_source "llm" model_15_25].
Proof. reflexivity. Qed.

Example tokens_default :
  tokenRecommendations 1000
  = {| min_tokens := 125; max_tokens_limit := 750; default_tokens := 500;
       input_tokens_estimate := 250 |}.
Proof. reflexivity. Qed.

Example tokens_at_133 :
  tokenRecommendations 133
  = {| min_tokens := 100; max_tokens_limit := 102; default_tokens := 68;
       input_tokens_estimate := 34 |}.
Proof. reflexivity. Qed.

(** An entity without a source is lost when fixed entities are written
    back. *)
Example untagged_dropped :
  let st := onEntitiesUpdate [Obj 7 (mk_span 0 4 "Acme" "ORG" None)]
              (run selecting_Corp initialState) in
  entities st = [] /\ manualEntities st = [].
Proof. split; reflexivity. Qed.

(** ** Trimming and splitting *)

Lemma trimEnd_cons c r :
  trimEnd (String c r) =
    match trimEnd r with
    | EmptyString =>
        if is_white_space c then EmptyString else String c EmptyString
    | r' => String c r'
    end.
Proof. reflexivity. Qed.

Lemma trimEnd_idem s : trimEnd (trimEnd s) = trimEnd s.
Proof.
  induction s as [|c r IH]; [done|]. rewrite trimEnd_cons.
  destruct (trimEnd r) as [|c' r'] eqn:Hr.
  - destruct (is_white_space c) eqn:Hc; [done|].
    rewrite trimEnd_cons. simpl. by rewrite Hc.
  - rewrite trimEnd_cons, IH. done.
Qed.

Lemma trimEnd_keeps_head c r :
  is_white_space c = false -> trimEnd (String c r) = String c (trimEnd r).
Proof.
  intros Hc. rewrite trimEnd_cons, Hc. by destruct (trimEnd r).
Qed.

Lemma trimStart_head s :
  trimStart s = EmptyString
  \/ exists c r, trimStart s = String c r /\ is_white_space c = false.
Proof.
  induction s as [|c r IH]; [by left|]. simpl.
  destruct (is_white_space c) eqn:Hc; [exact IH|]. right. eauto.
Qed.

Lemma trim_idem s : trim (trim s) = trim s.
Proof.
  unfold trim. destruct (trimStart_head s) as [->|(c & r & -> & Hc)]; [done|].
  rewrite (trimEnd_keeps_head c r Hc). simpl trimStart. rewrite Hc.
  rewrite <- (trimEnd_keeps_head c r Hc). apply trimEnd_idem.
Qed.

Lemma or_empty_id s : or_empty s = s.
Proof. by destruct s. Qed.

Lemma split_on_not_nil sep s : split_on sep s <> [].
Proof.
  destruct s as [|c r]; simpl; [done|].
  destruct (Ascii.eqb c sep); [done|]. by destruct (split_on sep r).
Qed.

Lemma append_cons c a b : String c a +:+ b = String c (a +:+ b).
Proof. reflexivity. Qed.

Lemma append_empty_l b : EmptyString +:+ b = b.
Proof. reflexivity. Qed.

Lemma split_on_app sep a b :
  split_on sep (a +:+ String sep b) = split_on sep a ++ split_on sep b.
Proof.
  induction a as [|c r IH].
  - rewrite append_empty_l. simpl. by rewrite Ascii.eqb_refl.
  - rewrite append_cons. simpl.
    destruct (Ascii.eqb c sep); [by rewrite IH|].
    rewrite IH. pose proof (split_on_not_nil sep r) as Hr.
    by destruct (split_on sep r).
Qed.

Lemma split_on_plain sep s : contains sep s = false -> split_on sep s = [s].
Proof.
  induction s as [|c r IH]; [done|]. simpl.
  intros [Hc Hr]%orb_false_iff. by rewrite Hc, (IH Hr).
Qed.

Lemma contains_app c a b : contains c (a +:+ b) = contains c a || contains c b.
Proof.
  induction a as [|c' r IH]; [done|]. rewrite append_cons. simpl.
  rewrite <- orb_assoc. by f_equal.
Qed.

Lemma append_empty_r s : s +:+ EmptyString = s.
Proof. induction s as [|c r IH]; [done|]. by rewrite append_cons, IH. Qed.

(** ** Tag files *)

Lemma parse_line_trimmed line t :
  parse_line line = Some t -> trim_tag t = t.
Proof.
  unfold parse_line. destruct (3 <=? length (split_on comma line))%nat; [|done].
  intros [= <-]. unfold trim_tag. simpl.
  by rewrite !or_empty_id, !trim_idem.
Qed.

(** The fields of every tag read from a file are trimmed: trimming them
    again changes nothing. *)
Theorem parsedTags_trimmed (csv : string) :
  Forall (fun t => trim_tag t = t) (parsedTags csv).
Proof.
  unfold parsedTags. apply Forall_forall. intros t Ht.
  apply list_elem_of_omap in Ht as (line & _ & Hline).
  by apply parse_line_trimmed in Hline.
Qed.

(** The first line of a tag file is a header whatever it holds: the tags
    are those of the lines after the first line break. *)
Theorem parsedTags_skips_header (header body : string) :
  contains newline header = false ->
  parsedTags (header +:+ String newline body)
  = omap parse_line (split_on newline body).
Proof.
  intros Hh. unfold parsedTags.
  by rewrite split_on_app, (split_on_plain _ _ Hh).
Qed.

Lemma parsedTags_skips_header_witness :
  parsedTags ("GENE,a gene,BRCA1" +:+ String newline "ORG,organisation,Acme")
  = omap parse_line (split_on newline "ORG,organisation,Acme").
Proof.
  apply (parsedTags_skips_header "GENE,a gene,BRCA1" "ORG,organisation,Acme").
  reflexivity.
Defined.

(** A line break at the end of a tag file adds no tag. *)
Theorem parsedTags_trailing_newline (csv : string) :
  parsedTags (csv +:+ String newline EmptyString) = parsedTags csv.
Proof.
  unfold parsedTags. rewrite split_on_app.
  pose proof (split_on_not_nil newline csv) as Hne.
  destruct (split_on newline csv) as [|h lines]; [done|].
  change (omap parse_line (lines ++ [EmptyString]) = omap parse_line lines).
  rewrite omap_app. change (omap parse_line [EmptyString]) with (@nil AnnotationTag).
  by rewrite app_nil_r.
Qed.

(** Values after the third are not read: text that follows a third comma
    on a line, such as the rest of an example list, is lost. *)
Theorem parse_line_ignores_extra_values (line extra : string) :
  (3 <= length (split_on comma line))%nat ->
  parse_line (line +:+ String comma extra) = parse_line line.
Proof.
  intros Hlen. unfold parse_line. rewrite split_on_app, length_app.
  pose proof (split_on_not_nil comma extra) as Hne.
  destruct (split_on comma line) as [|v0 [|v1 [|v2 vs]]]; simpl in Hlen;
    try lia.
  apply Nat.leb_le in Hlen as Hlen'. simpl in Hlen'. done.
Qed.

Lemma parse_line_ignores_extra_values_witness :
  parse_line ("ORG,organisation,Acme" +:+ String comma " Globex")
  = parse_line "ORG,organisation,Acme".
Proof.
  apply (parse_line_ignores_extra_values "ORG,organisation,Acme" " Globex").
  vm_compute. lia.
Defined.

Lemma csv_row_plain t : plain_tag t -> contains newline (csv_row t) = false.
Proof.
  intros ([_ Hn] & [_ Hd] & [_ He]). unfold csv_row.
  rewrite contains_app. simpl. rewrite contains_app. simpl.
  by rewrite Hn, Hd, He.
Qed.

Lemma parse_csv_row t : plain_tag t -> parse_line (csv_row t) = Some (trim_tag t).
Proof.
  intros ([Hn _] & [Hd _] & [He _]). unfold parse_line, csv_row.
  rewrite split_on_app, (split_on_plain _ _ Hn).
  rewrite split_on_app, (split_on_plain _ _ Hd), (split_on_plain _ _ He).
  simpl. by rewrite !or_empty_id.
Qed.

Lemma split_csv_lines a l :
  contains newline a = false -> Forall plain_tag l ->
  split_on newline (a +:+ csv_lines l) = a :: (csv_row <$> l).
Proof.
  intros Ha Hl. revert a Ha. induction Hl as [|t l Ht _ IH]; intros a Ha.
  - simpl. by rewrite append_empty_r, (split_on_plain _ _ Ha).
  - simpl. rewrite split_on_app, (split_on_plain _ _ Ha).
    by rewrite (IH _ (csv_row_plain t Ht)).
Qed.

(** Round trip: a file made of a header line and one line
    [tag_name,definition,examples] per tag, whose fields hold no comma and
    no line break, is read back as these tags, trimmed, in order. *)
Theorem parsedTags_round_trip (header : string) (l : list AnnotationTag) :
  contains newline header = false ->
  Forall plain_tag l ->
  parsedTags (header +:+ csv_lines l) = trim_tag <$> l.
Proof.
  intros Hh Hl. unfold parsedTags. rewrite (split_csv_lines _ _ Hh Hl).
  change (omap parse_line (csv_row <$> l) = trim_tag <$> l).
  induction Hl as [|t l Ht _ IH]; [done|].
  rewrite !fmap_cons, <- IH. simpl. by rewrite (parse_csv_row t Ht).
Qed.

Lemma parsedTags_round_trip_witness :
  parsedTags ("tag_name,definition,examples" +:+ csv_lines [gene_tag; org_tag])
  = trim_tag <$> [gene_tag; org_tag].
Proof.
  apply (parsedTags_round_trip "tag_name,definition,examples"
           [gene_tag; org_tag]).
  - reflexivity.
  - repeat constructor.
Defined.

(** ** The annotated text preview *)

Lemma highlighted_render_entities txt sel index lastEnd l :
  highlighted (render_entities txt sel index lastEnd l).1 = l.
Proof.
  revert index lastEnd. induction l as [|e l IH]; intros index lastEnd; [done|].
  simpl. unfold highlighted in *. rewrite omap_app.
  destruct (lastEnd <? start_char e); simpl; by rewrite IH.
Qed.

(** The preview highlights every entity of the combined list once, in the
    order of the sort by start, overlapping or not; with an empty text it
    highlights none. *)
Theorem renderHighlightedText_highlights
    (txt : string) (combined : list obj) (selectedEntity : option obj) :
  highlighted (renderHighlightedText txt combined selectedEntity)
  = if truthy_string txt then sort_by_start combined else [].
Proof.
  unfold renderHighlightedText.
  destruct (truthy_string txt); simpl; [|done].
  destruct combined as [|e combined]; [done|].
  change (length (e :: combined) =? 0)%nat with false. cbv iota.
  set (r := render_entities txt selectedEntity 0 0 (sort_by_start (e :: combined))).
  assert (highlighted r.1 = sort_by_start (e :: combined)) as Hr
    by apply highlighted_render_entities.
  destruct (r.2 <? Z.of_nat (String.length txt)); [|done].
  unfold highlighted in *. rewrite omap_app. simpl. by rewrite app_nil_r.
Qed.

Lemma append_assoc_string a b c : (a +:+ b) +:+ c = a +:+ (b +:+ c).
Proof.
  induction a as [|x a IH]; [done|]. by rewrite !append_cons, IH.
Qed.

Lemma text_content_app l1 l2 :
  text_content (l1 ++ l2) = text_content l1 +:+ text_content l2.
Proof.
  induction l1 as [|el l1 IH]; [done|].
  simpl. unfold text_content in *. simpl. by rewrite IH, append_assoc_string.
Qed.

Lemma substring_split a m s :
  String.substring 0 a s +:+ String.substring a m s
  = String.substring 0 (a + m) s.
Proof.
  revert s. induction a as [|a IH]; intros s.
  - by destruct s.
  - destruct s as [|c r]; [done|]. simpl. by rewrite append_cons, IH.
Qed.

Lemma substring_full n s :
  (String.length s <= n)%nat -> String.substring 0 n s = s.
Proof.
  revert n. induction s as [|c r IH]; intros n Hn.
  - by destruct n.
  - destruct n as [|n]; simpl in *; [lia|]. rewrite IH; [done|lia].
Qed.

Lemma js_slice_inside s a b :
  0 <= a <= b -> b <= Z.of_nat (String.length s) ->
  js_slice s a b = String.substring (Z.to_nat a) (Z.to_nat b - Z.to_nat a) s.
Proof.
  intros Hab Hb. unfold js_slice, clamp_index.
  destruct (Z.ltb_spec a 0), (Z.ltb_spec b 0); try lia.
  f_equal; lia.
Qed.

Lemma prefix_extend s a b :
  0 <= a <= b -> b <= Z.of_nat (String.length s) ->
  String.substring 0 (Z.to_nat a) s +:+ js_slice s a b
  = String.substring 0 (Z.to_nat b) s.
Proof.
  intros Hab Hb. rewrite js_slice_inside, substring_split by done.
  f_equal. lia.
Qed.

Lemma render_entities_laid_out txt sel index lastEnd l :
  0 <= lastEnd <= Z.of_nat (String.length txt) ->
  laid_out txt lastEnd l ->
  lastEnd <= (render_entities txt sel index lastEnd l).2
    <= Z.of_nat (String.length txt)
  /\ String.substring 0 (Z.to_nat lastEnd) txt
       +:+ text_content (render_entities txt sel index lastEnd l).1
     = String.substring 0
         (Z.to_nat (render_entities txt sel index lastEnd l).2) txt.
Proof.
  revert index lastEnd. induction l as [|e l IH]; intros index lastEnd Hle Hl.
  - simpl. split; [lia|]. apply append_empty_r.
  - destruct Hl as (Hstart & (Hrange & Hend & Htext) & Hl).
    destruct (IH (S index) (end_char e) ltac:(lia) Hl) as [Hfinal Hcontent].
    simpl. split; [lia|]. rewrite <- Hcontent.
    rewrite text_content_app, <- append_assoc_string.
    change (text_content (EntitySpan index e (is_selected sel e)
                            :: (render_entities txt sel (S index) (end_char e) l).1))
      with (text e +:+ text_content
              (render_entities txt sel (S index) (end_char e) l).1).
    rewrite <- append_assoc_string. f_equal.
    rewrite Htext, <- (prefix_extend txt (start_char e) (end_char e)) by lia.
    f_equal.
    destruct (Z.ltb_spec lastEnd (start_char e)) as [Hlt|Hge].
    + change (text_content [TextNode (js_slice txt lastEnd (start_char e))])
        with (js_slice txt lastEnd (start_char e) +:+ EmptyString).
      rewrite append_empty_r. apply prefix_extend; lia.
    + change (text_content []) with EmptyString. rewrite append_empty_r.
      f_equal. lia.
Qed.

Lemma sorted_disjoint_laid_out txt lastEnd l :
  StronglySorted le_start l -> pairwise_disjoint l ->
  Forall (fun e : obj => matches_text txt e) l ->
  Forall (fun e : obj => lastEnd <= start_char e) l ->
  laid_out txt lastEnd l.
Proof.
  intros Hs. revert lastEnd.
  induction Hs as [|e l Hs IH He]; intros lastEnd Hd Hm Hl; [done|].
  inversion Hd as [|? ? Hde Hdl]; subst.
  inversion Hm as [|? ? Hme Hml]; subst.
  inversion Hl as [|? ? Hle _]; subst.
  simpl. split; [done|]. split; [done|]. apply IH; [done..|].
  apply Forall_forall. intros e' He'.
  rewrite Forall_forall in He, Hde, Hml.
  specialize (He _ He'). specialize (Hde _ He'). specialize (Hml _ He').
  destruct Hml as (Hr' & _). destruct Hme as (Hr & _).
  unfold le_start in He. unfold overlaps in Hde.
  apply Z.ltb_ge in Hde. lia.
Qed.

Lemma pairwise_disjoint_sort l :
  pairwise_disjoint l -> pairwise_disjoint (sort_by_start l).
Proof.
  rewrite !pairwise_disjoint_ranges.
  apply ForallOrdPairs_perm; [apply ranges_meet_sym|].
  by rewrite sort_by_start_perm.
Qed.

(** When the combined entities lie inside the text, are not empty, carry
    the text of their range and do not overlap one another, the preview
    reads exactly the text. *)
Theorem renderHighlightedText_shows_text
    (txt : string) (combined : list obj) (selectedEntity : option obj) :
  Forall (fun e : obj => matches_text txt e) combined ->
  pairwise_disjoint combined ->
  text_content (renderHighlightedText txt combined selectedEntity) = txt.
Proof.
  intros Hm Hd. unfold renderHighlightedText.
  destruct (negb (truthy_string txt) || (length combined =? 0)%nat).
  { apply append_empty_r. }
  assert (laid_out txt 0 (sort_by_start combined)) as Hl.
  { apply sorted_disjoint_laid_out.
    - apply sort_by_start_sorted.
    - by apply pairwise_disjoint_sort.
    - by rewrite sort_by_start_perm.
    - rewrite sort_by_start_perm. eapply Forall_impl; [exact Hm|].
      intros e (He & _). simpl. lia. }
  destruct (render_entities_laid_out txt selectedEntity 0 0 _
              ltac:(lia) Hl) as [Hfinal Hcontent].
  change (String.substring 0 (Z.to_nat 0) txt) with (String.substring 0 0 txt)
    in Hcontent.
  assert (String.substring 0 0 txt = EmptyString) as H0 by (by destruct txt).
  rewrite H0, append_empty_l in Hcontent. cbv zeta.
  set (r := render_entities txt selectedEntity 0 0 (sort_by_start combined))
    in *.
  destruct (Z.ltb_spec r.2 (Z.of_nat (String.length txt))) as [Hlt|Hge].
  - rewrite text_content_app, Hcontent.
    change (text_content [TextNode (js_slice_from txt r.2)])
      with (js_slice_from txt r.2 +:+ EmptyString).
    rewrite append_empty_r. unfold js_slice_from.
    rewrite prefix_extend by lia. apply substring_full. lia.
  - rewrite Hcontent. apply substring_full. lia.
Qed.

Lemma renderHighlightedText_shows_text_witness :
  text_content (renderHighlightedText acme_text [corp_span; acme_span] None)
  = acme_text.
Proof.
  apply (renderHighlightedText_shows_text acme_text [corp_span; acme_span] None).
  - repeat constructor; simpl; lia.
  - repeat constructor.
Defined.

(** ** More on the combined list *)

Lemma sort_by_start_of_sorted l :
  StronglySorted le_start l -> sort_by_start l = l.
Proof.
  induction 1 as [|x l Hl IH Hx]; [done|].
  simpl. rewrite IH. destruct l as [|y l']; [done|]. simpl.
  apply Forall_cons in Hx as [Hxy _]. unfold le_start in Hxy.
  destruct (Z.leb_spec (start_char x - start_char y) 0); [done|lia].
Qed.

(** The second sort, made by [renderHighlightedText] on a copy of the
    combined list, changes nothing: the list is already in that order. *)
Theorem combinedEntities_sort_again (base : nat) (ents mans : list obj) :
  sort_by_start (combinedEntities base ents mans)
  = combinedEntities base ents mans.
Proof. apply sort_by_start_of_sorted, sort_by_start_sorted. Qed.

(** Spans that start at the same offset keep the order of the
    concatenation: the LLM spans in their order, then the manual spans in
    theirs. *)
Theorem combinedEntities_stable
    (base : nat) (ents mans : list obj) (k : Z) :
  List.filter (fun e : obj => start_char e =? k)
    (combinedEntities base ents mans)
  = List.filter (fun e : obj => start_char e =? k)
      (spread_map base "llm" ents)
    ++ List.filter (fun e : obj => start_char e =? k)
         (spread_map (base + length ents) "manual" mans).
Proof.
  unfold combinedEntities. cbv zeta.
  by rewrite sort_by_start_stable, List.filter_app.
Qed.

(** The counts shown above the preview add up: the combined list has as
    many entries as the LLM list and the manual list together. *)
Theorem combinedEntities_length (base : nat) (ents mans : list obj) :
  length (combinedEntities base ents mans) = (length ents + length mans)%nat.
Proof.
  unfold combinedEntities. cbv zeta.
  rewrite sort_by_start_perm, length_app. unfold spread_map.
  by rewrite !alloc_length, !length_fmap.
Qed.

Lemma filter_bool_perm {A} (f : A -> bool) (l l' : list A) :
  l ≡ₚ l' -> List.filter f l ≡ₚ List.filter f l'.
Proof.
  induction 1 as [|x l l' _ IH|x y l|l l' l'' _ IH1 _ IH2]; simpl.
  - done.
  - destruct (f x); by rewrite IH.
  - destruct (f x), (f y); try done. apply perm_swap.
  - by rewrite IH1.
Qed.

Lemma filter_bool_fmap {A B} (g : A -> B) (f : B -> bool) (l : list A) :
  g <$> List.filter (fun x => f (g x)) l = List.filter f (g <$> l).
Proof.
  induction l as [|x l IH]; [done|]. rewrite fmap_cons. simpl.
  destruct (f (g x)); [rewrite fmap_cons|]; by rewrite IH.
Qed.

Lemma filter_bool_none {A} (f : A -> bool) (l : list A) :
  (forall x, x ∈ l -> f x = false) -> List.filter f l = [].
Proof.
  induction l as [|x l IH]; intros H; [done|]. simpl.
  rewrite (H x) by left. apply IH. intros y Hy. apply H. by right.
Qed.

(** Writing the combined list back as it is (a fix that changes nothing)
    loses no span and moves none to the other list: the LLM list holds
    again its spans, tagged "llm", and the manual list its spans, tagged
    "manual", up to order. *)
Theorem onEntitiesUpdate_of_combined
    (base b : nat) (ents mans : list obj) (st : AppState) :
  fields <$> entities
    (onEntitiesUpdate (alloc b (fields <$> combinedEntities base ents mans)) st)
    ≡ₚ (fun e : obj => with_source "llm" e) <$> ents
  /\ fields <$> manualEntities
       (onEntitiesUpdate (alloc b (fields <$> combinedEntities base ents mans)) st)
     ≡ₚ (fun e : obj => with_source "manual" e) <$> mans.
Proof.
  simpl.
  rewrite (filter_bool_fmap fields is_llm), (filter_bool_fmap fields is_manual).
  rewrite alloc_fields.
  rewrite !(filter_bool_perm _ _ _ (combinedEntities_fields base ents mans)).
  rewrite !List.filter_app.
  assert (forall (s : string) (l : list obj) x,
            x ∈ (fun e : obj => with_source s e) <$> l -> source x = Some s)
    as Hsrc.
  { intros s l x (e & -> & _)%list_elem_of_fmap. done. }
  split.
  - rewrite filter_bool_all, filter_bool_none, app_nil_r; [done|..].
    + intros x Hx%Hsrc. unfold is_llm. by rewrite Hx.
    + intros x Hx%Hsrc. unfold is_llm. by rewrite Hx.
  - rewrite filter_bool_none, filter_bool_all; [done|..].
    + intros x Hx%Hsrc. unfold is_manual. by rewrite Hx.
    + intros x Hx%Hsrc. unfold is_manual. by rewrite Hx.
Qed.

(** ** More on the page state *)

Lemma handle_manual_source ev st :
  Forall (fun e : obj => source e = Some "manual") (manualEntities st) ->
  Forall (fun e : obj => source e = Some "manual")
    (manualEntities (handle ev st)).
Proof.
  intros H. destruct ev; simpl; try done;
    unfold onMouseUp, handleAddManualAnnotation, handleRemoveEntity;
    repeat case_match; simpl; try done.
  - apply Forall_app. split; [done|]. by repeat constructor.
  - apply Forall_forall. intros e [He _]%elem_of_filter_bool.
    rewrite Forall_forall in H. by apply H.
  - apply Forall_forall. intros e [_ He]%elem_of_filter_bool.
    by apply is_manual_true.
Qed.

(** In every reachable state each stored manual entity carries the source
    "manual", whatever responses arrived from annotate and fix calls. *)
Theorem reachable_manual_source (st : AppState) :
  reachable st ->
  Forall (fun e : obj => source e = Some "manual") (manualEntities st).
Proof.
  induction 1 as [|st ev _ IH _]; [constructor|].
  by apply handle_manual_source.
Qed.

Lemma reachable_manual_source_witness :
  Forall (fun e : obj => source e = Some "manual")
    (manualEntities (run annotating_Corp_twice initialState)).
Proof.
  apply (reachable_manual_source (run annotating_Corp_twice initialState)).
  apply reachable_run; [apply reachable_init|].
  apply annotating_Corp_twice_enabled.
Defined.

Lemma handle_selection_consistent ev st :
  selection_consistent st -> selection_consistent (handle ev st).
Proof.
  intros H. destruct ev; simpl; try done;
    unfold onMouseUp, handleAddManualAnnotation, handleRemoveEntity;
    repeat case_match; simpl; try done.
  - right. by split.
  - by left.
Qed.

Lemma reachable_selection_consistent st :
  reachable st -> selection_consistent st.
Proof.
  induction 1 as [|st ev _ IH _]; [by left|].
  by apply handle_selection_consistent.
Qed.

(** Whenever the page offers the tag buttons, a click on one adds exactly
    one manual entity, with that label, and closes the selection: the
    blank-text guard of the handler never stops a click that the page
    allows. *)
Theorem offered_manual_annotation_is_added (st : AppState) (lbl : string) :
  reachable st ->
  enabled st (AddManual lbl) ->
  exists e : obj,
    manualEntities (handle (AddManual lbl) st) = manualEntities st ++ [e]
    /\ label e = lbl
    /\ selectedRange (handle (AddManual lbl) st) = None
    /\ selectedText (handle (AddManual lbl) st) = EmptyString.
Proof.
  intros Hst (_ & Hrange & _).
  destruct (reachable_selection_consistent st Hst) as [[Hnone _]|[_ Htext]];
    [done|].
  simpl. unfold handleAddManualAnnotation.
  destruct (selectedRange st) as [range|]; [|done].
  rewrite Htext. simpl. eauto.
Qed.

Lemma offered_manual_annotation_is_added_witness :
  exists e : obj,
    manualEntities (handle (AddManual "ORG") (run selecting_Corp initialState))
      = manualEntities (run selecting_Corp initialState) ++ [e]
    /\ label e = "ORG"
    /\ selectedRange (handle (AddManual "ORG") (run selecting_Corp initialState))
       = None
    /\ selectedText (handle (AddManual "ORG") (run selecting_Corp initialState))
       = EmptyString.
Proof.
  apply (offered_manual_annotation_is_added (run selecting_Corp initialState)
           "ORG").
  - apply reachable_run; [apply reachable_init|apply selecting_Corp_enabled].
  - repeat split; [discriminate|apply list_elem_of_here].
Defined.

(** A second click on a tag button without a new selection adds nothing:
    the first click closed the selection. *)
Theorem handleAddManualAnnotation_twice (st : AppState) (lbl1 lbl2 : string) :
  handleAddManualAnnotation lbl2 (handleAddManualAnnotation lbl1 st)
  = handleAddManualAnnotation lbl1 st.
Proof.
  unfold handleAddManualAnnotation at 2 3.
  destruct (selectedRange st) as [range|] eqn:Hrange.
  - destruct (truthy_string (trim (selectedText st))) eqn:Htext; [done|].
    unfold handleAddManualAnnotation. by rewrite Hrange, Htext.
  - unfold handleAddManualAnnotation. by rewrite Hrange.
Qed.

(** ** More on the token recommendations *)

Lemma ceil_div_4_mono c c' : c <= c' -> ceil_div c 4 <= ceil_div c' 4.
Proof. intros H. unfold ceil_div. Z.div_mod_to_equations. lia. Qed.

(** A larger chunk size never lowers a recommendation. *)
Theorem tokenRecommendations_monotone (c c' : Z) :
  c <= c' ->
  min_tokens (tokenRecommendations c) <= min_tokens (tokenRecommendations c')
  /\ default_tokens (tokenRecommendations c)
     <= default_tokens (tokenRecommendations c')
  /\ max_tokens_limit (tokenRecommendations c)
     <= max_tokens_limit (tokenRecommendations c')
  /\ input_tokens_estimate (tokenRecommendations c)
     <= input_tokens_estimate (tokenRecommendations c').
Proof.
  intros H%ceil_div_4_mono. simpl.
  repeat split; try lia; Z.div_mod_to_equations; lia.
Qed.

Lemma tokenRecommendations_monotone_witness :
  min_tokens (tokenRecommendations 200) <= min_tokens (tokenRecommendations 4000)
  /\ default_tokens (tokenRecommendations 200)
     <= default_tokens (tokenRecommendations 4000)
  /\ max_tokens_limit (tokenRecommendations 200)
     <= max_tokens_limit (tokenRecommendations 4000)
  /\ input_tokens_estimate (tokenRecommendations 200)
     <= input_tokens_estimate (tokenRecommendations 4000).
Proof. apply (tokenRecommendations_monotone 200 4000). lia. Defined.

(** For every chunk size of the slider the range of the Max Tokens slider
    spans at least one step of 50, and the token estimate is the least
    number of 4-character tokens that cover the chunk. *)
Theorem tokenRecommendations_range (c : Z) :
  200 <= c <= 4000 ->
  min_tokens (tokenRecommendations c) + 50
    <= max_tokens_limit (tokenRecommendations c)
  /\ 4 * (input_tokens_estimate (tokenRecommendations c) - 1) < c
     <= 4 * input_tokens_estimate (tokenRecommendations c).
Proof.
  intros H. unfold tokenRecommendations, ceil_div. simpl.
  Z.div_mod_to_equations. lia.
Qed.

Lemma tokenRecommendations_range_witness :
  min_tokens (tokenRecommendations 200) + 50
    <= max_tokens_limit (tokenRecommendations 200)
  /\ 4 * (input_tokens_estimate (tokenRecommendations 200) - 1) < 200
     <= 4 * input_tokens_estimate (tokenRecommendations 200).
Proof. apply (tokenRecommendations_range 200). lia. Defined.

(** ** More on the Fix call *)

Lemma prop_missing (k : string) (m : gmap string jsval) :
  m !! k = None -> prop k (JObject m) = JUndefined.
Proof. intros H. unfold prop. by rewrite H. Qed.

(** A response without the key a component reads changes no entity.  The
    first component then does nothing at all; the second still shows an
    alert, which reads "Updated 0 annotations" when the statistics are
    missing too. *)
Theorem handleFix_missing_key (result : gmap string jsval) (st : AppState) :
  (result !! "fixed_entities" = None ->
   ValidationComponent1.handleFix result
     = {| entities_update := None; validation_result := None; alert := None |}
   /\ apply_fix ValidationComponent1.handleFix result st = st)
  /\ (result !! "fixed_annotations" = None ->
      apply_fix ValidationComponent2.handleFix result st = st
      /\ (result !! "fix_statistics" = None ->
          alert (ValidationComponent2.handleFix result)
          = Some (FixUpdated 0))).
Proof.
  split.
  - intros H. unfold apply_fix, ValidationComponent1.handleFix.
    by rewrite (prop_missing _ _ H).
  - intros H. unfold apply_fix, ValidationComponent2.handleFix,
      ValidationComponent2.stats_alert.
    rewrite (prop_missing _ _ H). split; [done|].
    intros Hs. by rewrite (prop_missing _ _ Hs).
Qed.

Lemma handleFix_missing_key_witness :
  (ValidationComponent1.handleFix response_with_fixed_annotations
     = {| entities_update := None; validation_result := None; alert := None |}
   /\ apply_fix ValidationComponent1.handleFix response_with_fixed_annotations
        (run selecting_Corp initialState)
      = run selecting_Corp initialState)
  /\ apply_fix ValidationComponent2.handleFix response_with_fixed_entities
       (run selecting_Corp initialState)
     = run selecting_Corp initialState.
Proof.
  split.
  - apply (handleFix_missing_key response_with_fixed_annotations
             (run selecting_Corp initialState)). reflexivity.
  - apply (handleFix_missing_key response_with_fixed_entities
             (run selecting_Corp initialState)). reflexivity.
Defined.

(** An empty list in the response is still a list: it is written back and
    empties both the LLM list and the manual list, so nothing is left to
    show. *)
Theorem fix_with_empty_list_clears (result : gmap string jsval) (st : AppState) :
  (result !! "fixed_entities" = Some (JEntities []) ->
   combinedOf (apply_fix ValidationComponent1.handleFix result st) = []
   /\ manualEntities (apply_fix ValidationComponent1.handleFix result st) = [])
  /\ (result !! "fixed_annotations" = Some (JEntities []) ->
      combinedOf (apply_fix ValidationComponent2.handleFix result st) = []
      /\ manualEntities (apply_fix ValidationComponent2.handleFix result st)
         = []).
Proof.
  split; intros H.
  - unfold apply_fix, ValidationComponent1.handleFix.
    by rewrite (prop_lookup _ _ _ H).
  - unfold apply_fix, ValidationComponent2.handleFix.
    by rewrite (prop_lookup _ _ _ H).
Qed.

Lemma fix_with_empty_list_clears_witness :
  combinedOf
    (apply_fix ValidationComponent1.handleFix
       (<["fixed_entities" := JEntities []]> ∅)
       (run annotating_Corp_twice initialState)) = []
  /\ manualEntities
       (apply_fix ValidationComponent1.handleFix
          (<["fixed_entities" := JEntities []]> ∅)
          (run annotating_Corp_twice initialState)) = [].
Proof.
  apply (fix_with_empty_list_clears (<["fixed_entities" := JEntities []]> ∅)
           (run annotating_Corp_twice initialState)).
  reflexivity.
Defined.
